(** * The movie listing handler: query translation and pagination

    A shallow embedding of [getMovies], the handler of [GET /api/movies]:
    the removal of the reserved keys, the JSON round trip with the
    operator rewrite [/\b(gt|gte|lt|lte|in)\b/g], the search, select and
    sort steps, the pagination arithmetic and the response envelope.

    - The input is [req.query] as the query-string parser delivers it: an
      object whose values are strings, arrays or objects, so that
      [rating[gte]=8] arrives as [{ rating: { gte: "8" } }].
    - Strings are byte strings (UTF-8).  Bytes above 127 are neither word
      characters nor escaped, as the code units they encode.
    - The handler's numbers are doubles that hold integers; they are
      modelled by [Z], which is exact below 2^53.
    - The store is a parameter: its records, its evaluation of one filter
      document on one record, and what it rejects.

    After the translator come the genre listing, the handlers of single
    movies, the routes of the movies router, the patterns of the movie
    schema and the seeding script. *)

From Stdlib Require Import String Ascii List ZArith Bool Arith Lia.
Import ListNotations.
Local Open Scope string_scope.
Local Open Scope nat_scope.

(** ** Characters *)

Module Chars.

Definition dquote : ascii := Eval cbv in ascii_of_nat 34.
Definition backslash : ascii := Eval cbv in ascii_of_nat 92.

Definition code (c : ascii) : nat := nat_of_ascii c.

Definition between (lo hi n : nat) : bool := (lo <=? n) && (n <=? hi).

Definition isDigit (c : ascii) : bool := between 48 57 (code c).

(** [\w] of a JavaScript regular expression without the [u] flag. *)
Definition isWord (c : ascii) : bool :=
  between 48 57 (code c) || between 65 90 (code c)
  || between 97 122 (code c) || (code c =? 95).

(** Code units below U+0020, which JSON never leaves raw in a string. *)
Definition isControl (c : ascii) : bool := code c <? 32.

(** The characters [JSON.stringify] escapes. *)
Definition isSpecial (c : ascii) : bool :=
  Ascii.eqb c dquote || Ascii.eqb c backslash || isControl c.

Definition hexDigit (n : nat) : ascii :=
  if n <? 10 then ascii_of_nat (48 + n) else ascii_of_nat (87 + n).

Definition hexVal (c : ascii) : option nat :=
  let n := code c in
  if between 48 57 n then Some (n - 48)
  else if between 97 102 n then Some (n - 87)
  else if between 65 70 n then Some (n - 55)
  else None.

(** The text of the given bytes, to write characters beyond ASCII. *)
Definition bytes (l : list nat) : string :=
  string_of_list_ascii (map ascii_of_nat l).

(** ASCII case folding, as the [i] flag does on Latin letters. *)
Definition lower (c : ascii) : ascii :=
  if between 65 90 (code c) then ascii_of_nat (code c + 32) else c.

End Chars.
Import Chars.

(** ** Regular expressions *)

Module Regex.

(** The constructs the patterns of the movie schema use, over the bytes
    of a text: literal characters, a byte of a given kind, sequence,
    alternation and repetition.  A pattern is only ever tested, so what
    matters is which texts it matches. *)
Inductive regex : Type :=
| Void
| Eps
| Lit (c : ascii)
| Sat (p : ascii -> bool)
| Seq (r1 r2 : regex)
| Alt (r1 r2 : regex)
| Star (r : regex).

(** [r+] and [r?]. *)
Definition Plus (r : regex) : regex := Seq r (Star r).
Definition Opt (r : regex) : regex := Alt r Eps.

(** A run of literal characters. *)
Fixpoint text (s : string) : regex :=
  match s with
  | "" => Eps
  | String c r => Seq (Lit c) (text r)
  end.

(** [(r1|r2|...)]. *)
Definition oneOf (l : list regex) : regex := fold_right Alt Void l.

(** The line terminators, which the dot does not match: line feed and
    carriage return are single bytes, the separators U+2028 and U+2029
    are the bytes E2 80 A8 and E2 80 A9, and no other character has E2 80
    A8 or E2 80 A9 among its bytes. *)
Definition isLineBreak (d : ascii) : bool := (code d =? 10) || (code d =? 13).

Definition isE2 (d : ascii) : bool := code d =? 226.

(** U+2028, the line separator, as text. *)
Definition lineSeparator : string := bytes [226; 128; 168].

(** [x] and [y] after the byte E2 make a separator. *)
Definition isSeparator (x y : ascii) : bool :=
  (code x =? 128) && ((code y =? 168) || (code y =? 169)).

(** The dot.  The patterns use it only repeated, so what counts is which
    texts a run of dots matches: each dot takes one byte that is neither a
    line break nor E2, or E2 with the two bytes after it when the three
    are not a separator. *)
Definition Dot : regex :=
  Alt (Sat (fun d => negb (isLineBreak d) && negb (isE2 d)))
      (Seq (Sat isE2)
           (Alt (Seq (Sat (fun x => negb (code x =? 128))) (Sat (fun _ => true)))
                (Seq (Sat (fun x => code x =? 128))
                     (Sat (fun y => negb ((code y =? 168) || (code y =? 169))))))).

(** [s] starts with a character that is not a line terminator. *)
Definition startsPlain (s : string) : bool :=
  match s with
  | "" => false
  | String d r =>
      if isE2 d
      then match r with
           | String x (String y _) => negb (isSeparator x y)
           | _ => false
           end
      else negb (isLineBreak d)
  end.

(** No character of [s] is a line terminator. *)
Fixpoint noLineBreak (s : string) : bool :=
  match s with
  | "" => true
  | String d r =>
      if isE2 d
      then match r with
           | String x (String y r') => negb (isSeparator x y) && noLineBreak r'
           | _ => false
           end
      else negb (isLineBreak d) && noLineBreak r
  end.

Section Flags.

(** The flag [i]. *)
Variable ignoreCase : bool.

Definition sameChar (c d : ascii) : bool :=
  if ignoreCase then Ascii.eqb (lower c) (lower d) else Ascii.eqb c d.

(** [s] is the text [t], character by character. *)
Fixpoint agrees (t s : string) : bool :=
  match t, s with
  | "", "" => true
  | String c t', String d s' => sameChar c d && agrees t' s'
  | _, _ => false
  end.

(** The texts a pattern matches from its first to its last character. *)
Inductive lang : regex -> string -> Prop :=
| lang_eps : lang Eps ""
| lang_lit c d : sameChar c d = true -> lang (Lit c) (String d "")
| lang_sat p d : p d = true -> lang (Sat p) (String d "")
| lang_seq r1 r2 s1 s2 : lang r1 s1 -> lang r2 s2 -> lang (Seq r1 r2) (s1 ++ s2)
| lang_alt_l r1 r2 s : lang r1 s -> lang (Alt r1 r2) s
| lang_alt_r r1 r2 s : lang r2 s -> lang (Alt r1 r2) s
| lang_star_nil r : lang (Star r) ""
| lang_star_cons r s1 s2 :
    lang r s1 -> lang (Star r) s2 -> lang (Star r) (s1 ++ s2).

Fixpoint nullable (r : regex) : bool :=
  match r with
  | Void => false
  | Eps => true
  | Lit _ => false
  | Sat _ => false
  | Seq r1 r2 => nullable r1 && nullable r2
  | Alt r1 r2 => nullable r1 || nullable r2
  | Star _ => true
  end.

(** What is left of [r] to match after the character [d]. *)
Fixpoint deriv (d : ascii) (r : regex) : regex :=
  match r with
  | Void => Void
  | Eps => Void
  | Lit c => if sameChar c d then Eps else Void
  | Sat p => if p d then Eps else Void
  | Seq r1 r2 =>
      if nullable r1
      then Alt (Seq (deriv d r1) r2) (deriv d r2)
      else Seq (deriv d r1) r2
  | Alt r1 r2 => Alt (deriv d r1) (deriv d r2)
  | Star r1 => Seq (deriv d r1) (Star r1)
  end.

(** [/^r$/.test(s)]. *)
Fixpoint matchFull (r : regex) (s : string) : bool :=
  match s with
  | "" => nullable r
  | String d t => matchFull (deriv d r) t
  end.

(** [/^r/.test(s)]: some prefix of [s] matches. *)
Fixpoint matchPrefix (r : regex) (s : string) : bool :=
  nullable r ||
  match s with
  | "" => false
  | String d t => matchPrefix (deriv d r) t
  end.

(** [/r/.test(s)]: some part of [s] matches. *)
Fixpoint matchSome (r : regex) (s : string) : bool :=
  matchPrefix r s ||
  match s with
  | "" => false
  | String _ t => matchSome r t
  end.

End Flags.

End Regex.

(** ** Query values and JSON *)

Module Json.

(** A value of [req.query] as the query-string parser delivers it, and a
    value [JSON.parse] returns for text made of strings, arrays and
    objects.  An object is the list of its own properties in enumeration
    order. *)
Unset Elimination Schemes.
Inductive json : Type :=
| JStr (s : string)
| JArr (l : list json)
| JObj (l : list (string * json)).
Set Elimination Schemes.

Definition object := list (string * json).

Section Induction.
Variable P : json -> Prop.
Hypothesis HStr : forall s, P (JStr s).
Hypothesis HArr : forall l, Forall P l -> P (JArr l).
Hypothesis HObj : forall l, Forall (fun kv => P (snd kv)) l -> P (JObj l).

Fixpoint json_ind (v : json) : P v :=
  match v with
  | JStr s => HStr s
  | JArr l =>
      HArr l ((fix all (l : list json) : Forall P l :=
                 match l with
                 | [] => Forall_nil _
                 | x :: t => Forall_cons x (json_ind x) (all t)
                 end) l)
  | JObj l =>
      HObj l ((fix all (l : object) : Forall (fun kv => P (snd kv)) l :=
                 match l with
                 | [] => Forall_nil _
                 | kv :: t =>
                     Forall_cons (P := fun kv => P (snd kv)) kv
                                 (json_ind (snd kv)) (all t)
                 end) l)
  end.
End Induction.

(** *** Property access on objects *)

(** [obj[k]], [None] for [undefined]. *)
Fixpoint getProp (k : string) (o : object) : option json :=
  match o with
  | [] => None
  | (k', v) :: t => if String.eqb k' k then Some v else getProp k t
  end.

(** [delete obj[k]]. *)
Definition deleteProp (k : string) (o : object) : object :=
  filter (fun kv => negb (String.eqb (fst kv) k)) o.

(** [obj[k] = v]: an existing property keeps its place, a new one goes
    last. *)
Fixpoint setProp (k : string) (v : json) (o : object) : object :=
  match o with
  | [] => [(k, v)]
  | (k', v') :: t =>
      if String.eqb k' k then (k, v) :: t else (k', v') :: setProp k v t
  end.

(** The object [JSON.parse] builds from the members it reads, left to
    right. *)
Definition fromEntries (l : list (string * json)) : object :=
  fold_left (fun o kv => setProp (fst kv) (snd kv) o) l [].

(** *** JSON.stringify *)

(** The escape of one character inside a string literal. *)
Definition escapeChar (c : ascii) : string :=
  if Ascii.eqb c dquote then String backslash (String dquote "")
  else if Ascii.eqb c backslash then String backslash (String backslash "")
  else if isControl c then
    match code c with
    | 8 => "\b" | 9 => "\t" | 10 => "\n" | 12 => "\f" | 13 => "\r"
    | n => "\u00" ++ String (hexDigit (n / 16)) (String (hexDigit (n mod 16)) "")
    end
  else String c "".

Fixpoint escape (s : string) : string :=
  match s with
  | "" => ""
  | String c r => escapeChar c ++ escape r
  end.

Definition quote (s : string) : string :=
  String dquote (escape s ++ String dquote "").

Section SepBy.
Context {A : Type}.
Variable item : A -> string.
Variable close : ascii.

(** The items in order, a comma after each one that another follows and
    the closing bracket after the last. *)
Fixpoint sepBy (l : list A) : string :=
  match l with
  | [] => String close ""
  | x :: t =>
      item x ++
      match t with
      | [] => String close ""
      | _ :: _ => String "," (sepBy t)
      end
  end.
End SepBy.

(** [JSON.stringify v], no indentation. *)
Fixpoint JSON_stringify (v : json) : string :=
  match v with
  | JStr s => quote s
  | JArr l => String "[" (sepBy JSON_stringify "]" l)
  | JObj l =>
      String "{"
        (sepBy (fun kv => quote (fst kv) ++ String ":" (JSON_stringify (snd kv)))
               "}" l)
  end.

(** *** JSON.parse

    The grammar the serializer writes: string literals with their
    escapes, arrays and objects, no insignificant white space, no
    numbers or keyword literals.  [None] is the [SyntaxError]. *)

Definition peekIs (c : ascii) (s : string) : bool :=
  match s with
  | String d _ => Ascii.eqb d c
  | "" => false
  end.

Definition tail (s : string) : string :=
  match s with
  | String _ r => r
  | "" => ""
  end.

Definition consResult (c : ascii) (r : option (string * string))
  : option (string * string) :=
  match r with
  | Some (t, rest) => Some (String c t, rest)
  | None => None
  end.

(** The body of a string literal, after its opening quote: the decoded
    text and what follows the closing quote.  A [\uXXXX] escape is decoded
    for code points below 128, the ones a byte holds. *)
Fixpoint parseString (s : string) : option (string * string) :=
  match s with
  | "" => None
  | String c r =>
      if Ascii.eqb c dquote then Some ("", r)
      else if Ascii.eqb c backslash then
        match r with
        | "" => None
        | String e r1 =>
            if Ascii.eqb e dquote then consResult dquote (parseString r1)
            else if Ascii.eqb e backslash then consResult backslash (parseString r1)
            else if Ascii.eqb e "/" then consResult "/" (parseString r1)
            else if Ascii.eqb e "b" then consResult (ascii_of_nat 8) (parseString r1)
            else if Ascii.eqb e "f" then consResult (ascii_of_nat 12) (parseString r1)
            else if Ascii.eqb e "n" then consResult (ascii_of_nat 10) (parseString r1)
            else if Ascii.eqb e "r" then consResult (ascii_of_nat 13) (parseString r1)
            else if Ascii.eqb e "t" then consResult (ascii_of_nat 9) (parseString r1)
            else if Ascii.eqb e "u" then
              match r1 with
              | String h1 (String h2 (String h3 (String h4 r2))) =>
                  match hexVal h1, hexVal h2, hexVal h3, hexVal h4 with
                  | Some a, Some b, Some c', Some d =>
                      let n := ((a * 16 + b) * 16 + c') * 16 + d in
                      if n <? 128 then consResult (ascii_of_nat n) (parseString r2)
                      else None
                  | _, _, _, _ => None
                  end
              | _ => None
              end
            else None
        end
      else if isControl c then None
      else consResult c (parseString r)
  end.

(** Items separated by commas up to the closing bracket [close]. *)
Fixpoint parseSeq {A : Type} (item : string -> option (A * string))
         (close : ascii) (fuel : nat) (s : string) : option (list A * string) :=
  match fuel with
  | 0 => None
  | S fuel' =>
      match item s with
      | None => None
      | Some (a, r) =>
          if peekIs "," r then
            match parseSeq item close fuel' (tail r) with
            | Some (l, r') => Some (a :: l, r')
            | None => None
            end
          else if peekIs close r then Some ([a], tail r)
          else None
      end
  end.

(** One member of an object: a string literal, a colon, a value. *)
Definition parseMember (value : string -> option (json * string)) (s : string)
  : option ((string * json) * string) :=
  if peekIs dquote s then
    match parseString (tail s) with
    | None => None
    | Some (k, r) =>
        if peekIs ":" r then
          match value (tail r) with
          | Some (v, r') => Some ((k, v), r')
          | None => None
          end
        else None
    end
  else None.

Fixpoint parseValue (fuel : nat) (s : string) : option (json * string) :=
  match fuel with
  | 0 => None
  | S fuel' =>
      if peekIs dquote s then
        match parseString (tail s) with
        | Some (t, r) => Some (JStr t, r)
        | None => None
        end
      else if peekIs "[" s then
        if peekIs "]" (tail s) then Some (JArr [], tail (tail s))
        else
          match parseSeq (parseValue fuel') "]" fuel' (tail s) with
          | Some (l, r) => Some (JArr l, r)
          | None => None
          end
      else if peekIs "{" s then
        if peekIs "}" (tail s) then Some (JObj [], tail (tail s))
        else
          match parseSeq (parseMember (parseValue fuel')) "}" fuel' (tail s) with
          | Some (l, r) => Some (JObj (fromEntries l), r)
          | None => None
          end
      else None
  end.

(** [JSON.parse s]: one value and nothing after it.  The text's length
    bounds the nesting and the number of items. *)
Definition JSON_parse (s : string) : option json :=
  match parseValue (S (String.length s)) s with
  | Some (v, "") => Some v
  | _ => None
  end.

End Json.
Import Json.

(** ** The operator rewrite

    [queryStr.replace(/\b(gt|gte|lt|lte|in)\b/g, match => `$${match}`)]. *)

Module Rewrite.

(** The alternatives of the pattern, in its order. *)
Definition operators : list string := ["gt"; "gte"; "lt"; "lte"; "in"].

(** The rest of [s] after the prefix [p]. *)
Fixpoint startsWith (p s : string) : option string :=
  match p with
  | "" => Some s
  | String a p' =>
      match s with
      | "" => None
      | String b s' => if Ascii.eqb a b then startsWith p' s' else None
      end
  end.

Definition headIsWord (s : string) : bool :=
  match s with
  | String c _ => isWord c
  | "" => false
  end.

(** [\b] between a character of wordness [prev] (false at the start of the
    text) and the text [s] that follows. *)
Definition atBoundary (prev : bool) (s : string) : bool :=
  xorb prev (headIsWord s).

(** One alternative followed by the closing [\b]; an alternative ends in a
    word character. *)
Definition matchAlt (s : string) (tk : string) : bool :=
  match startsWith tk s with
  | Some rest => atBoundary true rest
  | None => false
  end.

(** The match of the whole pattern at the head of [s]: the first
    alternative that lets the rest of the pattern succeed. *)
Definition matchAt (prev : bool) (s : string) : option string :=
  if atBoundary prev s then find (matchAlt s) operators else None.

(** The global replace, left to right: at a match a dollar sign is written,
    the matched characters are copied ([skip] counts them down) and the
    scan resumes after them. *)
Fixpoint replaceFrom (prev : bool) (skip : nat) (s : string) : string :=
  match s with
  | "" => ""
  | String c r =>
      match skip with
      | S k => String c (replaceFrom (isWord c) k r)
      | 0 =>
          match matchAt prev s with
          | Some tk =>
              String "$" (String c (replaceFrom (isWord c) (String.length tk - 1) r))
          | None => String c (replaceFrom (isWord c) 0 r)
          end
      end
  end.

Definition replaceOps (s : string) : string := replaceFrom false 0 s.

End Rewrite.
Import Rewrite.

(** ** Built-ins of the language the handler calls *)

Module Builtins.

(** [s.split(sep)] for a one-character separator. *)
Fixpoint split (sep : ascii) (s : string) : list string :=
  match s with
  | "" => [""]
  | String c r =>
      if Ascii.eqb c sep then "" :: split sep r
      else
        match split sep r with
        | h :: t => String c h :: t
        | [] => [String c ""]
        end
  end.

(** [l.join(sep)]. *)
Fixpoint join (sep : string) (l : list string) : string :=
  match l with
  | [] => ""
  | [x] => x
  | x :: t => x ++ sep ++ join sep t
  end.

(** [String(v)] throws a [TypeError]: the value is an object with a
    property [toString] of its own, or an array that holds one.  Such a
    property is never a function, and the [valueOf] the object inherits
    answers the object itself, so no primitive comes out of the
    conversion. *)
Fixpoint stringThrows (v : json) : bool :=
  match v with
  | JStr _ => false
  | JArr l => existsb stringThrows l
  | JObj l =>
      match getProp "toString" l with
      | Some _ => true
      | None => false
      end
  end.

(** [String(v)] for a query value on which the conversion does not
    throw. *)
Fixpoint toString (v : json) : string :=
  match v with
  | JStr s => s
  | JArr l => join "," (map toString l)
  | JObj _ => "[object Object]"
  end.

(** The conversion inside [parseInt(x, 10)] throws; [undefined] converts. *)
Definition throwsOn (x : option json) : bool :=
  match x with
  | Some v => stringThrows v
  | None => false
  end.

(** White space [parseInt] skips: of one byte, tab to carriage return and
    the space; *)
Definition isSpace (c : ascii) : bool :=
  between 9 13 (code c) || (code c =? 32).

(** of two bytes, U+00A0; *)
Definition isSpace2 (a b : ascii) : bool :=
  (code a =? 194) && (code b =? 160).

(** of three bytes, U+1680, U+2000 to U+200A, U+2028, U+2029, U+202F,
    U+205F, U+3000 and U+FEFF. *)
Definition isSpace3 (a b c : ascii) : bool :=
  ((code a =? 225) && (code b =? 154) && (code c =? 128))
  || ((code a =? 226) && (code b =? 128)
      && (between 128 138 (code c) || between 168 169 (code c)
          || (code c =? 175)))
  || ((code a =? 226) && (code b =? 129) && (code c =? 159))
  || ((code a =? 227) && (code b =? 128) && (code c =? 128))
  || ((code a =? 239) && (code b =? 187) && (code c =? 191)).

Fixpoint skipSpaces (s : string) : string :=
  match s with
  | "" => ""
  | String a r =>
      if isSpace a then skipSpaces r
      else
        match r with
        | String b r2 =>
            if isSpace2 a b then skipSpaces r2
            else
              match r2 with
              | String c r3 => if isSpace3 a b c then skipSpaces r3 else s
              | "" => s
              end
        | "" => s
        end
  end.

(** U+00A0, the no-break space, as text. *)
Definition noBreakSpace : string := bytes [194; 160].

(** The white space beyond ASCII, each as text: U+00A0, U+1680, U+2000
    to U+200A, U+2028, U+2029, U+202F, U+205F, U+3000 and U+FEFF. *)
Definition wideSpaces : list string :=
  (bytes [194; 160] :: bytes [225; 154; 128]
   :: map (fun n => bytes [226; 128; n]) (seq 128 11)
   ++ [bytes [226; 128; 168]; bytes [226; 128; 169]; bytes [226; 128; 175];
       bytes [226; 129; 159]; bytes [227; 128; 128]; bytes [239; 187; 191]])%list.

(** The value of the leading decimal digits of [s], after [acc]. *)
Fixpoint digits (acc : Z) (s : string) : Z :=
  match s with
  | "" => acc
  | String c r =>
      if isDigit c then digits (10 * acc + Z.of_nat (code c - 48)) r else acc
  end.

(** [parseInt(s, 10)]; [None] is [NaN].  The number of the code is the
    integer here rounded to a double, which is the integer itself below
    [safeBound]. *)
Definition parseInt (s : string) : option Z :=
  let s1 := skipSpaces s in
  let neg := peekIs "-" s1 in
  let s2 := if neg || peekIs "+" s1 then tail s1 else s1 in
  match s2 with
  | "" => None
  | String c _ =>
      if isDigit c then Some (if neg then (- digits 0 s2)%Z else digits 0 s2)
      else None
  end.

(** Integers below 2^53 in absolute value are doubles, and their sums,
    differences and products are exact as long as they stay below it. *)
Definition safeBound : Z := 2 ^ 53.

(** A run of decimal digits, and the number it denotes: each digit times
    the power of ten of its place. *)
Fixpoint allDigits (s : string) : bool :=
  match s with
  | "" => true
  | String c r => isDigit c && allDigits r
  end.

Fixpoint decimalValue (s : string) : Z :=
  match s with
  | "" => 0
  | String c r =>
      (Z.of_nat (code c - 48) * 10 ^ Z.of_nat (String.length r)
       + decimalValue r)%Z
  end.

(** The text starts with a decimal digit. *)
Definition headIsDigit (s : string) : bool :=
  match s with
  | String c _ => isDigit c
  | "" => false
  end.

(** [parseInt(x, 10)] for a property that may be [undefined], when the
    conversion to text does not throw. *)
Definition parseIntOf (x : option json) : option Z :=
  match x with
  | None => parseInt "undefined"
  | Some v => parseInt (toString v)
  end.

(** [n || d]: [NaN] and zero are falsy. *)
Definition orDefault (n : option Z) (d : Z) : Z :=
  match n with
  | Some z => if (z =? 0)%Z then d else z
  | None => d
  end.

(** Truthiness of a property: [undefined] and the empty string are falsy. *)
Definition truthy (x : option json) : bool :=
  match x with
  | None => false
  | Some (JStr "") => false
  | Some _ => true
  end.

End Builtins.
Import Builtins.

(** ** The handler [getMovies] *)

Module Handler.

Local Open Scope Z_scope.

(** What the handler's [catch] hands to [next]: an exception of the
    language, or the rejection of a call by the store. *)
Inductive error : Type := SyntaxError | TypeError | StoreError.

Inductive result (A : Type) : Type :=
| Ok (a : A)
| Err (e : error).
Arguments Ok {A} a.
Arguments Err {A} e.

Definition bind {A B : Type} (r : result A) (k : A -> result B) : result B :=
  match r with
  | Ok a => k a
  | Err e => Err e
  end.

Notation "x <- r ;; k" := (bind r (fun x => k))
  (at level 61, r at next level, right associativity).

(** Fields to exclude from filtering. *)
Definition removeFields : list string :=
  ["select"; "sort"; "page"; "limit"; "search"].

(** The copy of [req.query] after [removeFields.forEach(param => delete
    reqQuery[param])]. *)
Definition reqQuery (query : object) : object :=
  fold_left (fun o param => deleteProp param o) removeFields query.

(** [queryStr] after the replace. *)
Definition queryStr (query : object) : string :=
  replaceOps (JSON_stringify (JObj (reqQuery query))).

(** [JSON.parse(queryStr)], the argument of [Movie.find] and of
    [Movie.countDocuments]. *)
Definition filterOf (query : object) : option json :=
  JSON_parse (queryStr query).

(** One alternative of the search: [{ field: { $regex: search, $options:
    'i' } }]. *)
Definition regexOn (field : string) (search : json) : json :=
  JObj [(field, JObj [("$regex", search); ("$options", JStr "i")])].

(** The document of the second [find]. *)
Definition searchCondition (search : json) : json :=
  JObj [("$or", JArr [regexOn "title" search;
                      regexOn "description" search;
                      regexOn "director" search])].

(** [x.split(',').join(' ')]; only a string has [split]. *)
Definition splitJoin (x : json) : result string :=
  match x with
  | JStr s => Ok (join " " (split "," s))
  | _ => Err TypeError
  end.

(** The query under construction.  Chained [find] calls conjoin: the
    store merges their documents into one, and the model keeps the list
    (the two agree unless the filter has an [$or] key of its own).  The
    two [populate] calls, which only decorate the rows returned, are left
    out. *)
Record Query : Type := {
  conditions : list json;
  selected : option string;
  sortBy : string;
  skip : Z;
  limit : Z
}.

Record PageRef : Type := { page : Z; pageLimit : Z }.

Record Pagination : Type := {
  next : option PageRef;
  prev : option PageRef
}.

(** The envelope: [total], [pagination], and the query whose rows the
    store returns as [data] (and whose number is [count]). *)
Record Response : Type := {
  total : Z;
  pagination : Pagination;
  query : Query
}.

(** [parseInt(req.query.page, 10) || 1] and [parseInt(req.query.limit, 10)
    || 10]. *)
Definition pageOf (query : object) : Z :=
  orDefault (parseIntOf (getProp "page" query)) 1.

Definition limitOf (query : object) : Z :=
  orDefault (parseIntOf (getProp "limit" query)) 10.

Definition startIndex (page limit : Z) : Z := (page - 1) * limit.
Definition endIndex (page limit : Z) : Z := page * limit.

(** The pagination result.  The sums, differences and products are those
    of the code as long as the numbers stay below [safeBound]. *)
Definition paginationOf (page limit total : Z) : Pagination :=
  {| next := if endIndex page limit <? total
             then Some {| page := page + 1; pageLimit := limit |}
             else None;
     prev := if startIndex page limit >? 0
             then Some {| page := page - 1; pageLimit := limit |}
             else None |}.

Section Store.

(** The collaborating store: its records and its evaluation of one
    filter document on one record. *)
Variable Doc : Type.
Variable matches : json -> Doc -> bool.

(** [Movie.countDocuments(filter)]. *)
Definition countDocuments (filter : json) (db : list Doc) : Z :=
  Z.of_nat (List.length (List.filter (matches filter) db)).

(** The records a query ranges over, before sort, skip and limit. *)
Definition matching (q : Query) (db : list Doc) : list Doc :=
  List.filter (fun d => forallb (fun c => matches c d) (conditions q)) db.

(** The handler, in the order of the source: the filter of the first
    [find], the search, select and sort steps, the pagination and the
    count, the envelope.  An exception on the way goes to [next].  This is
    the handler for a [page] and a [limit] that convert to text, on a store
    that takes the count and the query; [Full.getMovies] below does
    without the two assumptions. *)
Definition getMovies (query : object) (db : list Doc) : result Response :=
  match filterOf query with
  | None => Err SyntaxError
  | Some filter =>
      let conds :=
        match getProp "search" query with
        | Some search =>
            if truthy (Some search) then [filter; searchCondition search]
            else [filter]
        | None => [filter]
        end in
      fields <- match getProp "select" query with
                | Some sel =>
                    if truthy (Some sel)
                    then (f <- splitJoin sel ;; Ok (Some f))
                    else Ok None
                | None => Ok None
                end ;;
      sort <- match getProp "sort" query with
              | Some srt =>
                  if truthy (Some srt) then splitJoin srt else Ok "-createdAt"
              | None => Ok "-createdAt"
              end ;;
      let page := pageOf query in
      let limit := limitOf query in
      let total := countDocuments filter db in
      Ok {| total := total;
            pagination := paginationOf page limit total;
            query := {| conditions := conds;
                        selected := fields;
                        sortBy := sort;
                        skip := startIndex page limit;
                        limit := limit |} |}
  end.

End Store.

End Handler.
Import Handler.

(** ** The handler with all that can stop it

    [Handler.getMovies] goes from the request to the query and the
    envelope.  On the way the code can stop at two more places: inside
    [parseInt], when [page] or [limit] does not convert to text, and at
    the two [await]s, when the store rejects the count or the query.  What
    the store rejects is the store's affair and a parameter here. *)

Module Full.

Section Store.

Variable Doc : Type.
Variable matches : json -> Doc -> bool.

(** [Movie.countDocuments(filter)] rejects; [await query] rejects. *)
Variable countRejects : json -> bool.
Variable findRejects : Query -> bool.

(** [page] and [limit] convert to text. *)
Definition converts (query : object) : bool :=
  negb (throwsOn (getProp "page" query))
  && negb (throwsOn (getProp "limit" query)).

(** The store takes the count and the query of the request. *)
Definition accepts (query : object) (db : list Doc) : bool :=
  match filterOf query, Handler.getMovies Doc matches query db with
  | Some filter, Ok r =>
      negb (countRejects filter) && negb (findRejects (Handler.query r))
  | _, _ => true
  end.

(** The handler, in the order of the source: the filter, the search,
    select and sort steps, the two [parseInt]s, the count, the query. *)
Definition getMovies (query : object) (db : list Doc) : result Response :=
  r <- Handler.getMovies Doc matches query db ;;
  if throwsOn (getProp "page" query) || throwsOn (getProp "limit" query)
  then Err TypeError
  else if match filterOf query with
          | Some filter => countRejects filter
          | None => false
          end
       then Err StoreError
       else if findRejects (Handler.query r) then Err StoreError else Ok r.

End Store.

End Full.

(** ** The store's conventions

    The store is a collaborator outside the handler's sources.  What
    follows fixes the conventions of it that the handler relies on: how a
    sort string is read, a reference evaluation of the filter documents
    the handler can write that use equality, [$or] and [$regex] with
    option [i], and two of the queries the store rejects. *)

Module RefStore.

Inductive direction : Type := Asc | Desc.

(** One token of a sort string: a field name, descending when prefixed
    with a minus sign. *)
Definition readToken (tk : string) : string * direction :=
  if peekIs "-" tk then (tail tk, Desc) else (tk, Asc).

(** Names the query builder passes over. *)
Definition specialProperties : list string :=
  ["__proto__"; "constructor"; "prototype"].

Definition isSpecialProperty (f : string) : bool :=
  existsb (String.eqb f) specialProperties.

(** [sort[f] = d] on the object that collects the sort keys: a field
    that is there already keeps its place. *)
Fixpoint setKey (f : string) (d : direction) (keys : list (string * direction))
  : list (string * direction) :=
  match keys with
  | [] => [(f, d)]
  | (g, e) :: t =>
      if String.eqb g f then (f, d) :: t else (g, e) :: setKey f d t
  end.

(** A name that is an array index: a decimal numeral without leading
    zeros, at most 2^32 - 2.  An object lists such keys first, in the
    order of their numbers, and the other keys after them in the order
    they were set. *)
Definition isIndex (f : string) : bool :=
  match f with
  | "" => false
  | String c r =>
      allDigits f && (negb (Ascii.eqb c "0") || String.eqb r "")
      && (decimalValue f <=? 4294967294)%Z
  end.

Fixpoint insertIndex (k : string * direction) (l : list (string * direction))
  : list (string * direction) :=
  match l with
  | [] => [k]
  | h :: t =>
      if (decimalValue (fst k) <? decimalValue (fst h))%Z
      then k :: l
      else h :: insertIndex k t
  end.

Definition ownKeys (keys : list (string * direction))
  : list (string * direction) :=
  (fold_right insertIndex [] (List.filter (fun k => isIndex (fst k)) keys)
   ++ List.filter (fun k => negb (isIndex (fst k))) keys)%list.

(** A sort string as the query builder reads it: the tokens between
    spaces, an empty one among them when two spaces meet, each setting the
    direction of its field; the keys in the order of the object are the
    sort keys, the first one the primary key. *)
Definition readSort (s : string) : list (string * direction) :=
  ownKeys
    (fold_left
       (fun keys tk =>
          let (f, d) := readToken tk in
          if isSpecialProperty f then keys else setKey f d keys)
       (split " " s) []).

(** Of what the store rejects, two cases: a sort key with an empty field
    name, and a negative skip. *)
Definition countRejects (filter : json) : bool := false.

Definition findRejects (q : Query) : bool :=
  existsb (fun k => String.eqb (fst k) "") (readSort (sortBy q))
  || (skip q <? 0)%Z.

(** A record: its text fields. *)
Definition Doc : Type := list (string * string).

Fixpoint field (name : string) (d : Doc) : option string :=
  match d with
  | [] => None
  | (k, v) :: t => if String.eqb k name then Some v else field name t
  end.

Fixpoint lowerCase (s : string) : string :=
  match s with
  | "" => ""
  | String c r => String (lower c) (lowerCase r)
  end.

(** [p] occurs in [s]. *)
Fixpoint contains (p s : string) : bool :=
  match startsWith p s with
  | Some _ => true
  | None =>
      match s with
      | "" => false
      | String _ r => contains p r
      end
  end.

(** Characters with a meaning of their own in a regular expression. *)
Definition isMeta (c : ascii) : bool :=
  existsb (Ascii.eqb c)
    (list_ascii_of_string ".^$*+?()[]{}|" ++ [backslash])%list.

Fixpoint literal (p : string) : bool :=
  match p with
  | "" => true
  | String c r => negb (isMeta c) && literal r
  end.

(** Text of ASCII characters only, on which letter case is that of the
    Latin letters. *)
Fixpoint isAscii (s : string) : bool :=
  match s with
  | "" => true
  | String c r => (code c <? 128) && isAscii r
  end.

Definition asciiField (t : option string) : bool :=
  match t with
  | Some t => isAscii t
  | None => true
  end.

(** A pattern without metacharacters matches where it occurs, with option
    [i] up to the case of the Latin letters of ASCII. *)
Definition containsCI (p s : string) : bool :=
  contains (lowerCase p) (lowerCase s).

(** The pattern [p] occurs, up to letter case, in a field that is
    there. *)
Definition occurs (p : string) (t : option string) : bool :=
  match t with
  | Some t => containsCI p t
  | None => false
  end.

(** The dot of the store's patterns: one character, given by its bytes,
    other than a line feed. *)
Definition continuation : Regex.regex :=
  Regex.Sat (fun c => between 128 191 (code c)).

Definition anyChar : Regex.regex :=
  Regex.oneOf
    [ Regex.Sat (fun c => (code c <? 128) && negb (code c =? 10));
      Regex.Seq (Regex.Sat (fun c => between 194 223 (code c))) continuation;
      Regex.Seq (Regex.Sat (fun c => between 224 239 (code c)))
                (Regex.Seq continuation continuation);
      Regex.Seq (Regex.Sat (fun c => between 240 244 (code c)))
                (Regex.Seq continuation
                           (Regex.Seq continuation continuation)) ].

(** The patterns with metacharacters that the reference store reads: the
    dot, and a metacharacter made literal by a backslash, among literal
    characters. *)
Fixpoint compile (p : string) : option Regex.regex :=
  match p with
  | "" => Some Regex.Eps
  | String c r =>
      if Ascii.eqb c backslash
      then match r with
           | String e r' =>
               if isMeta e
               then option_map (Regex.Seq (Regex.Lit e)) (compile r')
               else None
           | "" => None
           end
      else if Ascii.eqb c "."
           then option_map (Regex.Seq anyChar) (compile r)
           else if isMeta c then None
                else option_map (Regex.Seq (Regex.Lit c)) (compile r)
  end.

(** [{ $regex: p, $options: 'i' }] on the text [t]. *)
Definition regexMatches (p t : string) : bool :=
  if literal p then containsCI p t
  else
    match compile p with
    | Some r => Regex.matchSome true r t
    | None => false
    end.

(** The reference evaluation.  A condition [{ field: text }] is equality,
    [{ field: { $regex: p, $options: 'i' } }] is a match of the pattern
    up to letter case somewhere in the field, [{ $or: [...] }] is
    disjunction; a condition of any other shape, and a pattern with
    metacharacters other than the dot and the backslash, matches nothing
    here. *)
Fixpoint matches (f : json) (d : Doc) : bool :=
  match f with
  | JObj l =>
      forallb (fun kv =>
        match snd kv with
        | JStr s =>
            match field (fst kv) d with
            | Some t => String.eqb t s
            | None => false
            end
        | JArr alts =>
            String.eqb (fst kv) "$or" && existsb (fun a => matches a d) alts
        | JObj [(o1, JStr p); (o2, JStr "i")] =>
            String.eqb o1 "$regex" && String.eqb o2 "$options" &&
            match field (fst kv) d with
            | Some t => regexMatches p t
            | None => false
            end
        | JObj _ => false
        end) l
  | _ => false
  end.

(** Two records to run the handler on. *)
Definition sampleMovies : list Doc :=
  [ [("title", "Batman Begins");
     ("description", "A young heir becomes a masked vigilante");
     ("director", "Christopher Nolan")];
    [("title", "Up");
     ("description", "A house carried away by balloons");
     ("director", "Pete Docter")] ].

End RefStore.

(** ** What the round trip does to a query value *)

Module Translation.

(** An operator word starts at the head of [s] and ends there as a word. *)
Definition opHere (s : string) : bool := existsb (matchAlt s) operators.

(** A dollar sign before every operator word of [s] that no word character
    precedes; [after c] tells whether [c] counts as a word character for
    what follows it. *)
Fixpoint markWith (after : ascii -> bool) (prev : bool) (s : string) : string :=
  match s with
  | "" => ""
  | String c r =>
      if negb prev && opHere s
      then String "$" (String c (markWith after (after c) r))
      else String c (markWith after (after c) r)
  end.

(** The replace as one pass over the serialized text. *)
Definition mark : bool -> string -> string := markWith isWord.

(** The round trip on the text of one key or one string value.  A control
    character is serialized as an escape that ends in a letter or a digit,
    so an operator word right after it is not a word of its own. *)
Definition rewriteStr (s : string) : string :=
  markWith (fun c => isWord c || isControl c) false s.

(** The round trip on a value: every key and every string, at any depth. *)
Fixpoint rewriteJson (v : json) : json :=
  match v with
  | JStr s => JStr (rewriteStr s)
  | JArr l => JArr (map rewriteJson l)
  | JObj l =>
      JObj (fromEntries
              (map (fun kv => (rewriteStr (fst kv), rewriteJson (snd kv))) l))
  end.

(** A bound on the fuel [parseValue] needs for the text of [v]. *)
Fixpoint size (v : json) : nat :=
  match v with
  | JStr _ => 1
  | JArr l => S (list_sum (map size l))
  | JObj l => S (list_sum (map (fun kv => size (snd kv)) l))
  end.

Fixpoint allWord (s : string) : bool :=
  match s with
  | "" => true
  | String c r => isWord c && allWord r
  end.

(** The first [k] characters of [s] are word characters. *)
Fixpoint wordPrefix (k : nat) (s : string) : Prop :=
  match k, s with
  | S k', String c r => isWord c = true /\ wordPrefix k' r
  | _, _ => True
  end.

(** The wordness of the last character of [w], [prev] for the empty [w]. *)
Fixpoint lastWord (prev : bool) (w : string) : bool :=
  match w with
  | "" => prev
  | String c r => lastWord (isWord c) r
  end.

(** No operator word starts with [c]. *)
Definition notOpStart (c : ascii) : bool :=
  negb (existsb (peekIs c) operators).

(** Some operator word stands in [s] as a word of its own, as the round
    trip sees it. *)
Fixpoint hasOpWord (prev : bool) (s : string) : bool :=
  match s with
  | "" => false
  | String c r =>
      (negb prev && opHere s) || hasOpWord (isWord c || isControl c) r
  end.

Fixpoint hasChar (c : ascii) (s : string) : bool :=
  match s with
  | "" => false
  | String d r => Ascii.eqb d c || hasChar c r
  end.

(** A sort token that names one field: it has no space, and its field
    name is not empty, not an array index and not a name the query builder
    passes over. *)
Definition namesField (tk : string) : bool :=
  negb (hasChar " " tk)
  && negb (String.eqb (fst (RefStore.readToken tk)) "")
  && negb (RefStore.isIndex (fst (RefStore.readToken tk)))
  && negb (RefStore.isSpecialProperty (fst (RefStore.readToken tk))).

(** A property that is absent or a string. *)
Definition isText (x : option json) : bool :=
  match x with
  | None => true
  | Some (JStr _) => true
  | Some _ => false
  end.

End Translation.
Import Translation.

(** ** More on the round trip *)

Module Inverse.

(** Dropping the dollar signs that stand right before an operator word:
    what takes the rewritten text back. *)
Fixpoint unmark (s : string) : string :=
  match s with
  | "" => ""
  | String c r =>
      if Ascii.eqb c "$" && opHere r then unmark r else String c (unmark r)
  end.

(** Every key and every string rewritten in place, the properties kept one
    by one. *)
Fixpoint renameJson (v : json) : json :=
  match v with
  | JStr s => JStr (rewriteStr s)
  | JArr l => JArr (map renameJson l)
  | JObj l => JObj (map (fun kv => (rewriteStr (fst kv), renameJson (snd kv))) l)
  end.

(** The keys of every object in [v] are distinct, as those of an object of
    the language are. *)
Fixpoint distinctKeys (v : json) : Prop :=
  match v with
  | JStr _ => True
  | JArr l =>
      (fix all (l : list json) : Prop :=
         match l with
         | [] => True
         | x :: t => distinctKeys x /\ all t
         end) l
  | JObj l =>
      NoDup (map fst l) /\
      (fix all (l : object) : Prop :=
         match l with
         | [] => True
         | kv :: t => distinctKeys (snd kv) /\ all t
         end) l
  end.

End Inverse.
Import Inverse.

(** ** The rows of a query *)

Module Exec.

Section Run.

Variable Doc : Type.
Variable matches : json -> Doc -> bool.

(** The store's sort of records by a sort string. *)
Variable order : string -> list Doc -> list Doc.

(** The rows the store returns for a query with a non-negative skip and a
    positive limit: the matching records in order, without the first
    [skip] of them, [limit] at most.  Selecting fields and populating
    references change the rows, not their number. *)
Definition run (q : Query) (db : list Doc) : list Doc :=
  firstn (Z.to_nat (limit q))
         (skipn (Z.to_nat (skip q))
                (order (sortBy q) (matching Doc matches q db))).

End Run.

End Exec.

(** ** The handler [getMoviesByGenre] *)

Module Genre.

Local Open Scope Z_scope.

(** [Math.ceil(a / b)] for integers and [b] not zero. *)
Definition ceilDiv (a b : Z) : Z := - ((- a) / b).

(** [{ genre: { $in: [genre] } }]. *)
Definition genreFilter (genre : string) : json :=
  JObj [("genre", JObj [("$in", JArr [JStr genre])])].

Record GenrePagination : Type := {
  g_page : Z;
  g_limit : Z;
  g_pages : Z
}.

(** The envelope: [total], [pagination], and the query whose rows are
    [data]. *)
Record GenreResponse : Type := {
  g_total : Z;
  g_pagination : GenrePagination;
  g_query : Query
}.

Section Store.

Variable Doc : Type.
Variable matches : json -> Doc -> bool.

(** [genre] is [req.params.genre]. *)
Definition getMoviesByGenre (genre : string) (query : object) (db : list Doc)
  : GenreResponse :=
  let page := orDefault (parseIntOf (getProp "page" query)) 1 in
  let limit := orDefault (parseIntOf (getProp "limit" query)) 10 in
  let skip := (page - 1) * limit in
  let total := countDocuments Doc matches (genreFilter genre) db in
  {| g_total := total;
     g_pagination := {| g_page := page;
                        g_limit := limit;
                        g_pages := ceilDiv total limit |};
     g_query := {| conditions := [genreFilter genre];
                   selected := None;
                   sortBy := "-createdAt";
                   skip := skip;
                   limit := limit |} |}.

End Store.

End Genre.

(** ** The movie schema's patterns, and the seeding script *)

Module Schema.

Import Regex.

Definition imageExtensions : list string := ["jpg"; "jpeg"; "png"; "gif"; "webp"].

(** [/^https?:\/\/.+\.(jpg|jpeg|png|gif|webp)$/i]. *)
Definition posterPattern : regex :=
  Seq (text "http")
      (Seq (Opt (Lit "s"))
           (Seq (text "://")
                (Seq (Plus Dot)
                     (Seq (Lit ".") (oneOf (map text imageExtensions)))))).

(** [/^https?:\/\/.+/]. *)
Definition trailerPattern : regex :=
  Seq (text "http") (Seq (Opt (Lit "s")) (Seq (text "://") (Plus Dot))).

(** The [match] validator of a string path: an empty value passes, any
    other value is tested against the pattern. *)
Definition posterUrlOk (v : string) : bool :=
  String.eqb v "" || matchFull true posterPattern v.

Definition trailerUrlOk (v : string) : bool :=
  String.eqb v "" || matchPrefix false trailerPattern v.

End Schema.

Module Seed.

(** The values of the sample data: a number is its decimal digits and the
    count of them after the point, a date the text it is built from. *)
Unset Elimination Schemes.
Inductive value : Type :=
| VStr (s : string)
| VNum (digits : Z) (scale : nat)
| VDate (s : string)
| VArr (l : list value)
| VObj (l : list (string * value)).
Set Elimination Schemes.

Definition record : Type := list (string * value).

Definition castMember (name role : string) : value :=
  VObj [("name", VStr name); ("role", VStr role)].

Definition movies : list record :=
  [ [("title", VStr "The Shawshank Redemption");
     ("description", VStr "Two imprisoned men bond over a number of years, finding solace and eventual redemption through acts of common decency.");
     ("genre", VArr [VStr "Drama"]);
     ("director", VStr "Frank Darabont");
     ("cast", VArr [castMember "Tim Robbins" "Andy Dufresne";
                    castMember "Morgan Freeman" "Ellis Boyd Redding"]);
     ("rating", VNum 93 1);
     ("duration", VNum 142 0);
     ("releaseDate", VDate "1994-09-23");
     ("language", VStr "English");
     ("country", VStr "USA");
     ("posterUrl", VStr "https://via.placeholder.com/300x450.png?text=Shawshank+Redemption");
     ("budget", VNum 25000000 0);
     ("boxOffice", VNum 16000000 0)];
    [("title", VStr "The Godfather");
     ("description", VStr "The aging patriarch of an organized crime dynasty transfers control of his clandestine empire to his reluctant son.");
     ("genre", VArr [VStr "Crime"; VStr "Drama"]);
     ("director", VStr "Francis Ford Coppola");
     ("cast", VArr [castMember "Marlon Brando" "Don Vito Corleone";
                    castMember "Al Pacino" "Michael Corleone"]);
     ("rating", VNum 92 1);
     ("duration", VNum 175 0);
     ("releaseDate", VDate "1972-03-24");
     ("language", VStr "English");
     ("country", VStr "USA");
     ("posterUrl", VStr "https://via.placeholder.com/300x450.png?text=The+Godfather");
     ("budget", VNum 6000000 0);
     ("boxOffice", VNum 246120974 0)];
    [("title", VStr "The Dark Knight");
     ("description", VStr "When the menace known as the Joker wreaks havoc and chaos on the people of Gotham, Batman must accept one of the greatest psychological and physical tests.");
     ("genre", VArr [VStr "Action"; VStr "Crime"; VStr "Drama"]);
     ("director", VStr "Christopher Nolan");
     ("cast", VArr [castMember "Christian Bale" "Bruce Wayne / Batman";
                    castMember "Heath Ledger" "Joker"]);
     ("rating", VNum 9 0);
     ("duration", VNum 152 0);
     ("releaseDate", VDate "2008-07-18");
     ("language", VStr "English");
     ("country", VStr "USA");
     ("posterUrl", VStr "https://via.placeholder.com/300x450.png?text=The+Dark+Knight");
     ("budget", VNum 185000000 0);
     ("boxOffice", VNum 1004558444 0)];
    [("title", VStr "Pulp Fiction");
     ("description", VStr "The lives of two mob hitmen, a boxer, a gangster and his wife intertwine in four tales of violence and redemption.");
     ("genre", VArr [VStr "Crime"; VStr "Drama"]);
     ("director", VStr "Quentin Tarantino");
     ("cast", VArr [castMember "John Travolta" "Vincent Vega";
                    castMember "Samuel L. Jackson" "Jules Winnfield"]);
     ("rating", VNum 89 1);
     ("duration", VNum 154 0);
     ("releaseDate", VDate "1994-10-14");
     ("language", VStr "English");
     ("country", VStr "USA");
     ("posterUrl", VStr "https://via.placeholder.com/300x450.png?text=Pulp+Fiction");
     ("budget", VNum 8000000 0);
     ("boxOffice", VNum 214179088 0)];
    [("title", VStr "Forrest Gump");
     ("description", VStr "The presidencies of Kennedy and Johnson, the events of Vietnam, Watergate and other historical events unfold from the perspective of an Alabama man.");
     ("genre", VArr [VStr "Drama"; VStr "Romance"]);
     ("director", VStr "Robert Zemeckis");
     ("cast", VArr [castMember "Tom Hanks" "Forrest Gump";
                    castMember "Robin Wright" "Jenny Curran"]);
     ("rating", VNum 88 1);
     ("duration", VNum 142 0);
     ("releaseDate", VDate "1994-07-06");
     ("language", VStr "English");
     ("country", VStr "USA");
     ("posterUrl", VStr "https://via.placeholder.com/300x450.png?text=Forrest+Gump");
     ("budget", VNum 55000000 0);
     ("boxOffice", VNum 677387716 0)] ].

Fixpoint lookup (k : string) (r : record) : option value :=
  match r with
  | [] => None
  | (k', v) :: t => if String.eqb k' k then Some v else lookup k t
  end.

(** [{ ...movie, createdBy: id }]. *)
Fixpoint withCreator (id : value) (r : record) : record :=
  match r with
  | [] => [("createdBy", id)]
  | (k, v) :: t =>
      if String.eqb k "createdBy" then (k, id) :: t
      else (k, v) :: withCreator id t
  end.

(** What the script finds around it: whether the connection and the two
    clean-ups succeed, and the ids of the users [User.create] returns,
    [None] when it rejects. *)
Record environment : Type := {
  connects : bool;
  usersDeleted : bool;
  moviesDeleted : bool;
  createdUsers : option (list string)
}.

(** How the script ends: the code it exits with, and the movies its
    [Movie.create] stored. *)
Record ending : Type := {
  exitCode : nat;
  stored : list record
}.

Section ImportData.

(** The validators of the movie schema other than the pattern of
    [posterUrl], on a document as a whole. *)
Variable otherChecks : record -> bool.

(** The validators of the schema on one document.  A poster URL that is a
    string must pass its pattern. *)
Definition valid (d : record) : bool :=
  match lookup "posterUrl" d with
  | Some (VStr u) => Schema.posterUrlOk u && otherChecks d
  | _ => otherChecks d
  end.

(** [importData].  Any step that rejects or throws ends in
    [process.exit(1)], the read of [createdUsers[0]._id] on an empty list
    among them.  [Movie.create] stores the documents that are valid and
    rejects when one of them is not; [process.exit()] is exit code 0. *)
Definition importData (env : environment) : ending :=
  let failed := {| exitCode := 1; stored := [] |} in
  if negb (connects env) then failed
  else if negb (usersDeleted env) then failed
  else if negb (moviesDeleted env) then failed
  else
    match createdUsers env with
    | None => failed
    | Some [] => failed
    | Some (admin :: _) =>
        let moviesWithCreator := map (withCreator (VStr admin)) movies in
        if forallb valid moviesWithCreator
        then {| exitCode := 0; stored := moviesWithCreator |}
        else {| exitCode := 1; stored := List.filter valid moviesWithCreator |}
    end.

End ImportData.

End Seed.

(** ** The handlers of single movies *)

Module Crud.

(** [req.user], as the authentication middleware leaves it. *)
Record actor : Type := {
  actorId : string;
  actorRole : string
}.

(** What goes to [next]. *)
Inductive failure : Type := CastError | ValidationError | FieldTypeError.

(** A response [res.status(code).json(...)] with its message or its data,
    or an error handed to [next]. *)
Inductive reply (D : Type) : Type :=
| Json (code : nat) (message : option string) (data : option D)
| Next (e : failure).
Arguments Json {D} code message data.
Arguments Next {D} e.

Section Collection.

(** The values of fields, with an id as a field value and the text
    [toString()] gives of one. *)
Variable V : Type.
Variable idValue : string -> V.
Variable idText : V -> string.

Definition fieldset : Type := list (string * V).

(** A stored movie: its [_id] and its fields. *)
Record doc : Type := {
  docId : string;
  fields : fieldset
}.

Definition collection : Type := list doc.

(** The store's part.  [validId]: the text can be cast to an id.
    [accept]: the fields [Movie.create] stores for a body, [None] when
    validation rejects it.  [newId]: the id given to a new document.
    [revise]: the fields after [findByIdAndUpdate] with [runValidators],
    [None] when it rejects. *)
Variable validId : string -> bool.
Variable accept : fieldset -> option fieldset.
Variable newId : collection -> string.
Variable revise : fieldset -> fieldset -> option fieldset.

Fixpoint field (k : string) (f : fieldset) : option V :=
  match f with
  | [] => None
  | (k', v) :: t => if String.eqb k' k then Some v else field k t
  end.

(** [body[k] = v]. *)
Fixpoint assign (k : string) (v : V) (f : fieldset) : fieldset :=
  match f with
  | [] => [(k, v)]
  | (k', v') :: t =>
      if String.eqb k' k then (k, v) :: t else (k', v') :: assign k v t
  end.

(** [Movie.findById(id)] on an id that casts. *)
Definition findById (id : string) (c : collection) : option doc :=
  find (fun d => String.eqb (docId d) id) c.

(** The collection after the first document with this id is replaced. *)
Fixpoint replaceFirst (id : string) (m : doc) (c : collection) : collection :=
  match c with
  | [] => []
  | d :: t =>
      if String.eqb (docId d) id then m :: t else d :: replaceFirst id m t
  end.

(** The collection after [deleteOne] on the document with this id. *)
Fixpoint removeFirst (id : string) (c : collection) : collection :=
  match c with
  | [] => []
  | d :: t => if String.eqb (docId d) id then t else d :: removeFirst id t
  end.

(** [movie.createdBy.toString() !== req.user.id && req.user.role !==
    'admin']. *)
Definition notAuthorized (owner : V) (who : actor) : bool :=
  negb (String.eqb (idText owner) (actorId who))
  && negb (String.eqb (actorRole who) "admin").

(** The requester may change the movie with this id: it exists, and the
    requester created it or is an admin. *)
Definition mayChange (who : actor) (id : string) (c : collection) : Prop :=
  exists movie owner,
    validId id = true /\
    findById id c = Some movie /\
    field "createdBy" (fields movie) = Some owner /\
    (idText owner = actorId who \/ actorRole who = "admin").

Definition getMovie (id : string) (c : collection) : reply doc :=
  if negb (validId id) then Next CastError
  else
    match findById id c with
    | None => Json 404 (Some "Movie not found") None
    | Some movie => Json 200 None (Some movie)
    end.

Definition createMovie (who : actor) (body : fieldset) (c : collection)
  : reply doc * collection :=
  let body := assign "createdBy" (idValue (actorId who)) body in
  match accept body with
  | None => (Next ValidationError, c)
  | Some f =>
      let movie := {| docId := newId c; fields := f |} in
      let c' := (c ++ [movie])%list in
      (Json 201 None (findById (docId movie) c'), c')
  end.

Definition updateMovie (who : actor) (id : string) (body : fieldset)
           (c : collection) : reply doc * collection :=
  if negb (validId id) then (Next CastError, c)
  else
    match findById id c with
    | None => (Json 404 (Some "Movie not found") None, c)
    | Some movie =>
        match field "createdBy" (fields movie) with
        | None => (Next FieldTypeError, c)
        | Some owner =>
            if notAuthorized owner who
            then (Json 401 (Some "Not authorized to update this movie") None, c)
            else
              let body := assign "updatedBy" (idValue (actorId who)) body in
              match revise (fields movie) body with
              | None => (Next ValidationError, c)
              | Some f =>
                  let movie' := {| docId := id; fields := f |} in
                  (Json 200 None (Some movie'), replaceFirst id movie' c)
              end
        end
    end.

Definition deleteMovie (who : actor) (id : string) (c : collection)
  : reply doc * collection :=
  if negb (validId id) then (Next CastError, c)
  else
    match findById id c with
    | None => (Json 404 (Some "Movie not found") None, c)
    | Some movie =>
        match field "createdBy" (fields movie) with
        | None => (Next FieldTypeError, c)
        | Some owner =>
            if notAuthorized owner who
            then (Json 401 (Some "Not authorized to delete this movie") None, c)
            else (Json 200 (Some "Movie deleted successfully") None,
                  removeFirst id c)
        end
    end.

End Collection.

End Crud.

(** ** The routes of the movies router *)

Module Routes.

(** The method of a request.  HEAD is answered by the routes of GET;
    OPTIONS, which the CORS middleware answers before the router, is not
    among the other methods. *)
Inductive method : Type := GET | HEAD | POST | PUT | DELETE | OtherMethod.

Inductive middleware : Type :=
| protect
| authorizeAdmin
| validateMovie
| validateMovieUpdate.

Inductive controller : Type :=
| getMovies
| getTopRatedMovies
| getLatestMovies
| getMoviesByGenre
| getMovie
| createMovie
| updateMovie
| deleteMovie
| getMovieStats.

(** One segment of a route path: fixed text, or a parameter. *)
Inductive segment : Type :=
| Fixed (s : string)
| Param (name : string).

Record route : Type := {
  verb : method;
  path : list segment;
  chain : list middleware;
  target : controller
}.

(** The routes in the order they are registered. *)
Definition table : list route :=
  [ {| verb := GET; path := []; chain := []; target := getMovies |};
    {| verb := GET; path := [Fixed "top-rated"]; chain := [];
       target := getTopRatedMovies |};
    {| verb := GET; path := [Fixed "latest"]; chain := [];
       target := getLatestMovies |};
    {| verb := GET; path := [Fixed "genre"; Param "genre"]; chain := [];
       target := getMoviesByGenre |};
    {| verb := GET; path := [Param "id"]; chain := []; target := getMovie |};
    {| verb := POST; path := []; chain := [protect; validateMovie];
       target := createMovie |};
    {| verb := PUT; path := [Param "id"];
       chain := [protect; validateMovieUpdate]; target := updateMovie |};
    {| verb := DELETE; path := [Param "id"]; chain := [protect];
       target := deleteMovie |};
    {| verb := GET; path := [Fixed "admin"; Fixed "stats"];
       chain := [protect; authorizeAdmin]; target := getMovieStats |} ].

Definition sameMethod (a b : method) : bool :=
  match a, b with
  | GET, GET | HEAD, HEAD | POST, POST | PUT, PUT | DELETE, DELETE => true
  | _, _ => false
  end.

Definition serves (r : route) (m : method) : bool :=
  sameMethod (verb r) m || (sameMethod m HEAD && sameMethod (verb r) GET).

(** The segments of a request path below the mount point: the texts
    between its slashes, a slash at the end not counting. *)
Definition segmentsOf (p : string) : list string :=
  let parts := match split "/" p with
               | "" :: rest => rest
               | parts => parts
               end in
  match rev parts with
  | "" :: front => rev front
  | _ => parts
  end.

(** A fixed segment matches its text in any letter case, a parameter any
    text that is not empty; the text is that of the request, before any
    decoding. *)
Definition segmentMatches (sg : segment) (s : string) : bool :=
  match sg with
  | Fixed t => String.eqb (RefStore.lowerCase t) (RefStore.lowerCase s)
  | Param _ => negb (String.eqb s "")
  end.

Fixpoint pathMatches (pattern : list segment) (segs : list string) : bool :=
  match pattern, segs with
  | [], [] => true
  | sg :: pattern', s :: segs' => segmentMatches sg s && pathMatches pattern' segs'
  | _, _ => false
  end.

(** The first route registered that serves the method and matches the
    path; with none, the request falls through to the 404 of the
    application. *)
Definition dispatch (m : method) (p : string) : option route :=
  find (fun r => serves r m && pathMatches (path r) (segmentsOf p)) table.

(** What the router does with a request: it runs a route with the
    parameters of the path, or hands an error to the error handler
    because a parameter is not valid percent-encoding (status 400), or
    lets the request fall through to the 404 of the application. *)
Inductive outcome : Type :=
| Runs (r : route) (params : list (string * string))
| DecodeFailure
| FallsThrough.

Section Decoding.

(** The decoding of a parameter, [decodeURIComponent], modelled after
    this section; [None] when it throws. *)
Variable decode : string -> option string.

(** The parameters of a path that matches the pattern, decoded. *)
Fixpoint paramsOf (pattern : list segment) (segs : list string)
  : option (list (string * string)) :=
  match pattern, segs with
  | Fixed _ :: pattern', _ :: segs' => paramsOf pattern' segs'
  | Param name :: pattern', s :: segs' =>
      match decode s with
      | Some v => option_map (cons (name, v)) (paramsOf pattern' segs')
      | None => None
      end
  | _, _ => Some []
  end.

(** The walk over the routes in their order.  The path is matched, and
    its parameters decoded, before the method is looked at; a parameter
    that does not decode leaves an error behind, after which no route
    runs. *)
Fixpoint walk (m : method) (segs : list string) (routes : list route)
  : outcome :=
  match routes with
  | [] => FallsThrough
  | r :: rest =>
      if pathMatches (path r) segs
      then match paramsOf (path r) segs with
           | None => DecodeFailure
           | Some ps => if serves r m then Runs r ps else walk m segs rest
           end
      else walk m segs rest
  end.

Definition resolve (m : method) (p : string) : outcome :=
  walk m (segmentsOf p) table.

End Decoding.

(** [decodeURIComponent] on the bytes of a text, in two steps.  First
    each [%] with its two hexadecimal digits becomes the byte they
    denote, marked as escaped; a [%] without two such digits is an
    error. *)
Fixpoint unescape (s : string) : option (list (ascii * bool)) :=
  match s with
  | "" => Some []
  | String c r =>
      if Ascii.eqb c "%"
      then match r with
           | String h1 (String h2 r') =>
               match hexVal h1, hexVal h2 with
               | Some a, Some b =>
                   option_map (cons (ascii_of_nat (16 * a + b), true))
                              (unescape r')
               | _, _ => None
               end
           | _ => None
           end
      else option_map (cons (c, false)) (unescape r)
  end.

(** An escaped byte between [lo] and [hi]. *)
Definition escapedIn (lo hi : nat) (x : ascii * bool) : bool :=
  snd x && between lo hi (code (fst x)).

(** Then the escaped bytes above 127 must come as the UTF-8 encodings of
    characters, each byte of an encoding escaped. *)
Fixpoint wellFormed (l : list (ascii * bool)) : bool :=
  match l with
  | [] => true
  | (_, false) :: t => wellFormed t
  | (c, true) :: t =>
      let n := code c in
      if n <? 128 then wellFormed t
      else if between 194 223 n
      then match t with
           | x :: t' => escapedIn 128 191 x && wellFormed t'
           | _ => false
           end
      else if between 224 239 n
      then match t with
           | x :: y :: t' =>
               escapedIn (if n =? 224 then 160 else 128)
                         (if n =? 237 then 159 else 191) x
               && escapedIn 128 191 y && wellFormed t'
           | _ => false
           end
      else if between 240 244 n
      then match t with
           | x :: y :: z :: t' =>
               escapedIn (if n =? 240 then 144 else 128)
                         (if n =? 244 then 143 else 191) x
               && escapedIn 128 191 y && escapedIn 128 191 z && wellFormed t'
           | _ => false
           end
      else false
  end.

Definition decodeURIComponent (s : string) : option string :=
  match unescape s with
  | Some l =>
      if wellFormed l then Some (string_of_list_ascii (map fst l)) else None
  | None => None
  end.

End Routes.

(** Case analysis on membership in a list written out, [tac] closing each
    case. *)
Ltac in_cases H tac :=
  simpl in H; repeat (destruct H as [<- | H]; [tac |]); destruct H.

(** ** The definitions on concrete inputs *)

Example replace_operator_words :
  replaceOps "rating[gte]=8&title=gt&login=in,tin lte."
  = "rating[$gte]=8&title=$gt&login=$in,tin $lte.".
Proof. reflexivity. Qed.

Example replace_is_case_sensitive :
  replaceOps "GT Gte gt_ 1gt gtx" = "GT Gte gt_ 1gt gtx".
Proof. reflexivity. Qed.

Example replace_after_dollar : replaceOps "$gt" = "$$gt".
Proof. reflexivity. Qed.

Example stringify_nested :
  JSON_stringify (JObj [("rating", JObj [("gte", JStr "8")]);
                        ("genre", JArr [JStr "Action"; JStr "Drama"])])
  = ("{" ++ quote "rating" ++ ":{" ++ quote "gte" ++ ":" ++ quote "8" ++ "},"
         ++ quote "genre" ++ ":[" ++ quote "Action" ++ "," ++ quote "Drama"
         ++ "]}")%string.
Proof. reflexivity. Qed.

Example parse_stringify_nested :
  JSON_parse (JSON_stringify
                (JObj [("a", JArr [JStr "x"; JObj []]); ("b", JStr "y z")]))
  = Some (JObj [("a", JArr [JStr "x"; JObj []]); ("b", JStr "y z")]).
Proof. reflexivity. Qed.

Example parse_rejects_open_text : JSON_parse "{" = None.
Proof. reflexivity. Qed.

Example parseInt_samples :
  parseInt "12abc" = Some 12%Z /\ parseInt "  -7" = Some (-7)%Z /\
  parseInt "+3" = Some 3%Z /\ parseInt "abc" = None /\ parseInt "" = None /\
  parseInt "-" = None /\ parseIntOf None = None /\
  parseIntOf (Some (JArr [JStr "3"; JStr "4"])) = Some 3%Z /\
  parseIntOf (Some (JObj [("a", JStr "1")])) = None.
Proof. repeat split; reflexivity. Qed.

Example parseInt_white_space :
  parseInt (noBreakSpace ++ " 42") = Some 42%Z /\
  parseInt (Regex.lineSeparator ++ "-7") = Some (-7)%Z /\
  forallb (fun w => match parseInt (w ++ "7") with
                    | Some n => (n =? 7)%Z
                    | None => false
                    end) wideSpaces = true /\
  map (fun c => parseInt (String (ascii_of_nat c) "7")) [9; 10; 11; 12; 13; 32]
  = repeat (Some 7%Z) 6 /\
  (* U+200B, U+0085 and U+180E are no white space; nor is a lone byte. *)
  map (fun w => parseInt (w ++ "7"))
      [bytes [226; 128; 139]; bytes [194; 133]; bytes [225; 160; 142];
       bytes [194]; bytes [8]; bytes [226; 128]]
  = repeat None 6.
Proof. repeat split. Qed.

Example string_conversion_throws :
  stringThrows (JObj [("toString", JStr "1")]) = true /\
  stringThrows (JArr [JStr "1"; JObj [("toString", JArr [])]]) = true /\
  stringThrows (JObj [("valueOf", JStr "1")]) = false.
Proof. repeat split. Qed.

Example sort_string_readings :
  RefStore.readSort "-rating title"
  = [("rating", RefStore.Desc); ("title", RefStore.Asc)] /\
  RefStore.readSort "title  -rating"
  = [("title", RefStore.Asc); ("", RefStore.Asc); ("rating", RefStore.Desc)] /\
  RefStore.readSort "title -title rating"
  = [("title", RefStore.Desc); ("rating", RefStore.Asc)] /\
  RefStore.readSort "title 10 9"
  = [("9", RefStore.Asc); ("10", RefStore.Asc); ("title", RefStore.Asc)] /\
  RefStore.readSort "title 01 0"
  = [("0", RefStore.Asc); ("title", RefStore.Asc); ("01", RefStore.Asc)] /\
  RefStore.readSort "constructor title" = [("title", RefStore.Asc)].
Proof. repeat split. Qed.

Example pattern_with_dot :
  RefStore.regexMatches "b.t" "Batman" = true /\
  RefStore.regexMatches "b.t" "Bt" = false /\
  RefStore.regexMatches "." "Up" = true /\
  RefStore.regexMatches "\." "Up" = false /\
  RefStore.regexMatches "u\.p" "U.P" = true.
Proof. repeat split. Qed.

Example dot_and_line_separator :
  Schema.posterUrlOk ("http://a" ++ Regex.lineSeparator ++ "b.png") = false /\
  Schema.posterUrlOk ("http://a" ++ noBreakSpace ++ "b.PNG") = true /\
  Schema.trailerUrlOk ("http://" ++ Regex.lineSeparator) = false /\
  Schema.trailerUrlOk ("http://" ++ noBreakSpace) = true.
Proof. repeat split. Qed.

Example decode_samples :
  Routes.decodeURIComponent "a%2Fb%20c" = Some "a/b c" /\
  Routes.decodeURIComponent "%e2%82%ac" <> None /\
  Routes.decodeURIComponent "%" = None /\
  Routes.decodeURIComponent "%zz" = None /\
  Routes.decodeURIComponent "%E2%82" = None /\
  Routes.decodeURIComponent "%C0%80" = None /\
  Routes.decodeURIComponent "%ED%A0%80" = None.
Proof. repeat split; discriminate. Qed.

Example select_fields :
  splitJoin (JStr "title,rating,genre") = Ok "title rating genre".
Proof. reflexivity. Qed.

Example select_array_fails :
  getMovies RefStore.Doc RefStore.matches
            [("select", JArr [JStr "title"; JStr "rating"])]
            RefStore.sampleMovies
  = Err TypeError.
Proof. reflexivity. Qed.

(** An operator word right after a line feed: the serialized text reads
    [\ngt], one word, and nothing is rewritten. *)
Example operator_after_control :
  filterOf [("note", JStr (String (ascii_of_nat 10) "gt"))]
  = Some (JObj [("note", JStr (String (ascii_of_nat 10) "gt"))]).
Proof. reflexivity. Qed.

(** ** Strings *)

Lemma append_assoc (a b c : string) : ((a ++ b) ++ c = a ++ (b ++ c))%string.
Proof. induction a as [|x a IH]; simpl; [reflexivity | now rewrite IH]. Qed.

Lemma append_nil_r (a : string) : (a ++ "" = a)%string.
Proof. induction a as [|x a IH]; simpl; [reflexivity | now rewrite IH]. Qed.

Lemma length_append (a b : string) :
  String.length (a ++ b) = String.length a + String.length b.
Proof. induction a as [|x a IH]; simpl; [reflexivity | now rewrite IH]. Qed.

(** ** The pattern *)

Lemma operators_words :
  forall tk, In tk operators -> allWord tk = true /\ tk <> "".
Proof.
  intros tk H. unfold operators in H.
  in_cases H ltac:(split; [reflexivity | discriminate]).
Qed.

Lemma word_neq (a c : ascii) :
  isWord a = true -> isWord c = false -> Ascii.eqb a c = false.
Proof.
  intros Ha Hc. destruct (Ascii.eqb_spec a c) as [-> | _]; [congruence | reflexivity].
Qed.

Lemma matchAlt_head (s tk : string) :
  allWord tk = true -> tk <> "" -> matchAlt s tk = true -> headIsWord s = true.
Proof.
  destruct tk as [|a tk]; [congruence |]. simpl. intros Hw _.
  apply andb_true_iff in Hw as [Ha _].
  unfold matchAlt. destruct s as [|c r]; simpl; [discriminate |].
  destruct (Ascii.eqb_spec a c) as [-> | _]; [now intros _ | discriminate].
Qed.

Lemma opHere_head (s : string) : opHere s = true -> headIsWord s = true.
Proof.
  unfold opHere. intros H. apply existsb_exists in H as (tk & Hin & Hm).
  destruct (operators_words tk Hin) as [Hw Hne].
  now apply (matchAlt_head s tk).
Qed.

Lemma opHere_nonword (c : ascii) (r : string) :
  isWord c = false -> opHere (String c r) = false.
Proof.
  intros Hc. destruct (opHere (String c r)) eqn:E; [| reflexivity].
  apply opHere_head in E. simpl in E. congruence.
Qed.

Lemma find_existsb {A : Type} (f : A -> bool) (l : list A) :
  match find f l with Some _ => true | None => false end = existsb f l.
Proof.
  induction l as [|x l IH]; simpl; [reflexivity |].
  destruct (f x); [reflexivity | exact IH].
Qed.

(** The pattern matches exactly where no word character precedes and an
    operator word stands. *)
Lemma matchAt_opHere (prev : bool) (s : string) :
  match matchAt prev s with Some _ => true | None => false end
  = negb prev && opHere s.
Proof.
  unfold matchAt, atBoundary.
  destruct (headIsWord s) eqn:Hh.
  - destruct prev; cbn [xorb negb andb]; [reflexivity |]. apply find_existsb.
  - assert (Hop : opHere s = false).
    { destruct (opHere s) eqn:E; [| reflexivity].
      apply opHere_head in E. congruence. }
    rewrite Hop, andb_false_r. destruct prev; cbn [xorb]; [| reflexivity].
    unfold opHere in Hop. rewrite <- find_existsb in Hop.
    destruct (find (matchAlt s) operators); [discriminate | reflexivity].
Qed.

Lemma matchAt_Some (prev : bool) (s tk : string) :
  matchAt prev s = Some tk ->
  In tk operators /\ exists rest, startsWith tk s = Some rest.
Proof.
  unfold matchAt. destruct (atBoundary prev s); [| discriminate].
  intros H. apply find_some in H as [Hin Hm]. split; [exact Hin |].
  unfold matchAlt in Hm. destruct (startsWith tk s) as [rest|]; [| discriminate].
  now exists rest.
Qed.

Lemma startsWith_wordPrefix (tk s rest : string) :
  allWord tk = true -> startsWith tk s = Some rest ->
  wordPrefix (String.length tk) s.
Proof.
  revert s. induction tk as [|a tk IH]; intros s Hw Hs; simpl; [exact I |].
  destruct s as [|c r]; [exact I |]. simpl in Hs, Hw.
  apply andb_true_iff in Hw as [Ha Hw].
  destruct (Ascii.eqb_spec a c) as [<- | _]; [| discriminate].
  split; [exact Ha | now apply IH].
Qed.

(** Copying the matched characters and resuming after them is the same as
    looking at every position: inside a match a word character precedes. *)
Lemma replaceFrom_mark (s : string) :
  forall k prev,
    (k <> 0 -> prev = true /\ wordPrefix k s) ->
    replaceFrom prev k s = mark prev s.
Proof.
  induction s as [|c r IH]; intros k prev Hk; [reflexivity |].
  unfold mark in *. simpl replaceFrom. simpl markWith.
  pose proof (matchAt_opHere prev (String c r)) as Hm.
  destruct k as [|k].
  - destruct (matchAt prev (String c r)) as [tk|] eqn:E; rewrite <- Hm.
    + apply matchAt_Some in E as (Hin & rest & Hs).
      destruct (operators_words tk Hin) as [Hw Hne].
      pose proof (startsWith_wordPrefix tk _ rest Hw Hs) as Hp.
      destruct tk as [|a tk]; [congruence |]. simpl in Hp. destruct Hp as [Hc Hp].
      replace (String.length (String a tk) - 1) with (String.length tk)
        by (simpl; lia).
      rewrite IH; [reflexivity |]. intros _. now rewrite Hc.
    + rewrite IH; [reflexivity | congruence].
  - destruct Hk as [-> [Hc Hp]]; [discriminate |]. simpl.
    rewrite IH; [reflexivity |]. intros _. now rewrite Hc.
Qed.

Lemma replaceOps_mark (s : string) : replaceOps s = mark false s.
Proof. unfold replaceOps. apply replaceFrom_mark. congruence. Qed.

(** ** The replace on serialized text *)

Lemma mark_cons (prev : bool) (c : ascii) (r : string) :
  opHere (String c r) = false ->
  mark prev (String c r) = String c (mark (isWord c) r).
Proof.
  intros H. unfold mark. simpl. now rewrite H, andb_false_r.
Qed.

Lemma mark_nonword (prev : bool) (c : ascii) (r : string) :
  isWord c = false -> mark prev (String c r) = String c (mark false r).
Proof.
  intros H. rewrite mark_cons by now apply opHere_nonword. now rewrite H.
Qed.

Lemma opHere_notOpStart (c : ascii) (r : string) :
  notOpStart c = true -> opHere (String c r) = false.
Proof.
  unfold notOpStart. intros H. apply negb_true_iff in H.
  destruct (opHere (String c r)) eqn:E; [| reflexivity].
  apply existsb_exists in E as (tk & Hin & Hm).
  assert (Hp : existsb (peekIs c) operators = true).
  { apply existsb_exists. exists tk. split; [exact Hin |].
    destruct (operators_words tk Hin) as [_ Hne].
    destruct tk as [|a tk]; [congruence |].
    unfold matchAlt in Hm. cbn [startsWith] in Hm. cbn [peekIs].
    destruct (Ascii.eqb a c); [reflexivity | discriminate]. }
  congruence.
Qed.

(** Text in which no operator word can start is copied as it is. *)
Lemma mark_copy (w : string) :
  forall prev r,
    forallb notOpStart (list_ascii_of_string w) = true ->
    mark prev (w ++ r) = (w ++ mark (lastWord prev w) r)%string.
Proof.
  induction w as [|c w IH]; intros prev r H; [reflexivity |].
  simpl in H. apply andb_true_iff in H as [Hc Hw].
  simpl append. rewrite mark_cons by now apply opHere_notOpStart.
  now rewrite IH.
Qed.

Lemma mark_length (s : string) :
  forall prev, String.length s <= String.length (mark prev s).
Proof.
  unfold mark. induction s as [|c r IH]; intros prev; simpl; [lia |].
  specialize (IH (isWord c)).
  destruct (negb prev && opHere (String c r)); simpl; lia.
Qed.

(** ** Escapes *)

(** What the serializer writes for a character it escapes: text that
    starts with a backslash, in which no operator word starts, which ends
    in a word character exactly for a control character, and which the
    parser reads back as the character. *)
Lemma special_escape (c : ascii) :
  isSpecial c = true ->
  isWord c = false /\
  peekIs backslash (escapeChar c) = true /\
  forallb notOpStart (list_ascii_of_string (escapeChar c)) = true /\
  (forall prev, lastWord prev (escapeChar c) = isControl c) /\
  (forall r, parseString (escapeChar c ++ r) = consResult c (parseString r)).
Proof.
  destruct c as [[] [] [] [] [] [] [] []];
    intros H; try discriminate H;
    (split; [reflexivity |]); (split; [reflexivity |]);
    (split; [reflexivity |]); (split; intros; reflexivity).
Qed.

Lemma plain_flags (c : ascii) :
  isSpecial c = false ->
  Ascii.eqb c dquote = false /\ Ascii.eqb c backslash = false /\
  isControl c = false.
Proof.
  unfold isSpecial. intros H.
  apply orb_false_iff in H as [H H3]. apply orb_false_iff in H as [H1 H2].
  auto.
Qed.

Lemma plain_escape (c : ascii) :
  isSpecial c = false -> escapeChar c = String c "".
Proof.
  intros H. destruct (plain_flags c H) as (H1 & H2 & H3).
  unfold escapeChar. now rewrite H1, H2, H3.
Qed.

Lemma parseString_plain (c : ascii) (r : string) :
  isSpecial c = false ->
  parseString (String c r) = consResult c (parseString r).
Proof.
  intros H. destruct (plain_flags c H) as (H1 & H2 & H3).
  simpl. now rewrite H1, H2, H3.
Qed.

(** The head of escaped text. *)
Lemma escape_head (c : ascii) (s x : string) :
  (isSpecial c = true /\ isWord c = false /\
   exists y, (escape (String c s) ++ x)%string = String backslash y)
  \/
  (isSpecial c = false /\
   (escape (String c s) ++ x)%string = String c (escape s ++ x)).
Proof.
  destruct (isSpecial c) eqn:E.
  - left. destruct (special_escape c E) as (Hw & Hb & _).
    split; [reflexivity |]. split; [exact Hw |].
    simpl. destruct (escapeChar c) as [|b e]; [discriminate |].
    simpl in Hb. apply Ascii.eqb_eq in Hb. subst b.
    simpl. eexists. reflexivity.
  - right. split; [reflexivity |]. simpl. now rewrite plain_escape.
Qed.

Lemma backslash_nonword : isWord backslash = false.
Proof. reflexivity. Qed.

Lemma dquote_nonword : isWord dquote = false.
Proof. reflexivity. Qed.

(** An operator word stands at the head of the escaped text, up to the
    closing quote, exactly when it stands at the head of the text. *)
Lemma matchAlt_escape (tk : string) :
  allWord tk = true ->
  forall s rest,
    matchAlt (escape s ++ String dquote rest) tk = matchAlt s tk.
Proof.
  unfold matchAlt.
  induction tk as [|a tk IH]; intros Hw s rest.
  - simpl. unfold atBoundary. f_equal.
    destruct s as [|c s]; [reflexivity |].
    destruct (escape_head c s (String dquote rest))
      as [(_ & Hc & y & ->) | (_ & ->)]; simpl; [now rewrite Hc | reflexivity].
  - simpl in Hw. apply andb_true_iff in Hw as [Ha Hw].
    destruct s as [|c s].
    + simpl. now rewrite (word_neq a dquote Ha dquote_nonword).
    + destruct (escape_head c s (String dquote rest))
        as [(_ & Hc & y & ->) | (_ & ->)]; simpl.
      * now rewrite (word_neq a backslash Ha backslash_nonword),
          (word_neq a c Ha Hc).
      * destruct (Ascii.eqb a c); [now apply IH | reflexivity].
Qed.

Lemma opHere_escape (s rest : string) :
  opHere (escape s ++ String dquote rest) = opHere s.
Proof.
  unfold opHere.
  assert (H : forall l, (forall tk, In tk l -> allWord tk = true) ->
            existsb (matchAlt (escape s ++ String dquote rest)) l
            = existsb (matchAlt s) l).
  { induction l as [|tk l IH]; intros Hl; [reflexivity |]. simpl.
    rewrite matchAlt_escape by (apply Hl; now left).
    rewrite IH; [reflexivity |]. intros t Ht. apply Hl. now right. }
  apply H. intros tk Hin. now apply operators_words.
Qed.

(** The string literal the replace leaves behind is read back as the
    rewritten text. *)
Lemma parseString_mark (s : string) :
  forall prev rest,
    parseString (mark prev (escape s ++ String dquote rest))
    = Some (markWith (fun c => isWord c || isControl c) prev s,
            mark false rest).
Proof.
  induction s as [|c s IH]; intros prev rest.
  - simpl. rewrite mark_nonword by reflexivity. reflexivity.
  - destruct (isSpecial c) eqn:E.
    + destruct (special_escape c E) as (Hw & _ & Hn & Hl & Hp).
      simpl escape. rewrite append_assoc, mark_copy by exact Hn.
      rewrite Hp, Hl, IH. simpl.
      rewrite (opHere_nonword c s Hw), andb_false_r, Hw. reflexivity.
    + destruct (plain_flags c E) as (H1 & H2 & H3).
      assert (Ho : opHere (String c (escape s ++ String dquote rest))
                   = opHere (String c s)).
      { rewrite <- (opHere_escape (String c s) rest). simpl escape.
        now rewrite plain_escape by exact E. }
      simpl escape. rewrite plain_escape by exact E. simpl append.
      unfold mark. cbn [markWith]. rewrite Ho, H3, orb_false_r.
      fold mark.
      destruct (negb prev && opHere (String c s)).
      * rewrite (parseString_plain "$") by reflexivity.
        rewrite parseString_plain by exact E. now rewrite IH.
      * rewrite parseString_plain by exact E. now rewrite IH.
Qed.

(** ** Reading back the text the replace leaves *)

Section ParseSeq.
Context {A B : Type}.
Variable item : string -> option (B * string).
Variable pr : A -> string.
Variable g : A -> B.
Variable close : ascii.
Hypothesis close_nonword : isWord close = false.
Hypothesis close_not_comma : Ascii.eqb close "," = false.

Lemma parseSeq_sepBy (l : list A) :
  Forall (fun x => forall prev rest,
              item (mark prev (pr x ++ rest)) = Some (g x, mark false rest)) l ->
  l <> [] ->
  forall m prev rest,
    List.length l <= m ->
    parseSeq item close m (mark prev (sepBy pr close l ++ rest))
    = Some (map g l, mark false rest).
Proof.
  induction 1 as [|x t Hx Ht IH]; intros Hne m prev rest Hm; [congruence |].
  destruct m as [|m]; [simpl in Hm; lia |].
  simpl sepBy. rewrite append_assoc. cbn [parseSeq]. rewrite Hx.
  destruct t as [|y t].
  - simpl append. rewrite mark_nonword by exact close_nonword.
    cbn [peekIs tail map]. rewrite close_not_comma, Ascii.eqb_refl.
    reflexivity.
  - cbn [append]. rewrite mark_nonword by reflexivity.
    cbn [peekIs tail]. rewrite Ascii.eqb_refl.
    rewrite IH; [reflexivity | discriminate | simpl in Hm |- *; lia].
Qed.
End ParseSeq.

Lemma size_pos (v : json) : 1 <= size v.
Proof. destruct v; simpl; lia. Qed.

Lemma list_sum_bounds {A : Type} (f : A -> nat) (l : list A) :
  (forall x, 1 <= f x) ->
  List.length l <= list_sum (map f l) /\
  forall x, In x l -> f x <= list_sum (map f l).
Proof.
  intros Hf. induction l as [|y l [IH1 IH2]]; simpl.
  - split; [lia | intros x []].
  - split; [specialize (Hf y); lia |].
    intros x [<- | Hx]; [lia | specialize (IH2 x Hx); lia].
Qed.

(** A serialized value starts with a quote or an opening bracket. *)
Lemma stringify_head (v : json) :
  exists c y, JSON_stringify v = String c y /\ isWord c = false /\
              Ascii.eqb c "]" = false.
Proof.
  destruct v; simpl; unfold quote; eexists; eexists;
    (split; [reflexivity | split; reflexivity]).
Qed.

Lemma parseMember_mark (value : string -> option (json * string))
      (k : string) (v : json) :
  (forall prev rest,
      value (mark prev (JSON_stringify v ++ rest))
      = Some (rewriteJson v, mark false rest)) ->
  forall prev rest,
    parseMember value
      (mark prev ((quote k ++ String ":" (JSON_stringify v)) ++ rest))
    = Some ((rewriteStr k, rewriteJson v), mark false rest).
Proof.
  intros Hv prev rest. unfold quote, parseMember.
  cbn [append]. rewrite !append_assoc. cbn [append].
  rewrite mark_nonword by reflexivity. cbn [peekIs tail].
  rewrite Ascii.eqb_refl, parseString_mark.
  rewrite mark_nonword by reflexivity. cbn [peekIs tail].
  rewrite Ascii.eqb_refl, Hv. reflexivity.
Qed.

(** With fuel for its size, the parser reads the replaced text of [v]
    back as [rewriteJson v]. *)
Lemma parseValue_mark (v : json) :
  forall n prev rest,
    size v <= n ->
    parseValue n (mark prev (JSON_stringify v ++ rest))
    = Some (rewriteJson v, mark false rest).
Proof.
  induction v as [s | l IH | l IH] using json_ind; intros n prev rest Hn;
    (destruct n as [|n]; [pose proof (size_pos (JStr "")); simpl in Hn; lia |]).
  - simpl JSON_stringify. unfold quote. cbn [append]. rewrite append_assoc.
    cbn [append]. rewrite mark_nonword by reflexivity.
    cbn [parseValue peekIs tail]. rewrite Ascii.eqb_refl, parseString_mark.
    reflexivity.
  - simpl in Hn. apply le_S_n in Hn.
    destruct (list_sum_bounds size l size_pos) as [Hlen Hin].
    simpl JSON_stringify. cbn [append]. rewrite mark_nonword by reflexivity.
    cbn [parseValue peekIs tail].
    replace (Ascii.eqb "[" dquote) with false by reflexivity.
    rewrite Ascii.eqb_refl.
    destruct l as [|x t].
    + simpl sepBy. cbn [append]. rewrite mark_nonword by reflexivity.
      cbn [peekIs tail]. rewrite Ascii.eqb_refl. reflexivity.
    + assert (Hpeek : peekIs "]" (mark false
                        (sepBy JSON_stringify "]" (x :: t) ++ rest)) = false).
      { cbn [sepBy]. destruct (stringify_head x) as (c & y & -> & Hc & Hb).
        cbn [append]. rewrite mark_nonword by exact Hc. exact Hb. }
      rewrite Hpeek.
      rewrite (parseSeq_sepBy (parseValue n) JSON_stringify rewriteJson "]");
        [reflexivity | reflexivity | reflexivity | | discriminate | lia].
      rewrite Forall_forall in IH |- *. intros y Hy prev' rest'.
      apply IH; [exact Hy |]. specialize (Hin y Hy). lia.
  - simpl in Hn. apply le_S_n in Hn.
    destruct (list_sum_bounds (fun kv : string * json => size (snd kv)) l
                (fun kv => size_pos (snd kv))) as [Hlen Hin].
    set (pr := fun kv : string * json =>
                 (quote (fst kv) ++ String ":" (JSON_stringify (snd kv)))%string).
    change (JSON_stringify (JObj l)) with (String "{" (sepBy pr "}" l)).
    cbn [append]. rewrite mark_nonword by reflexivity.
    cbn [parseValue peekIs tail].
    replace (Ascii.eqb "{" dquote) with false by reflexivity.
    replace (Ascii.eqb "{" "[") with false by reflexivity.
    rewrite Ascii.eqb_refl.
    destruct l as [|x t].
    + simpl sepBy. cbn [append]. rewrite mark_nonword by reflexivity.
      cbn [peekIs tail]. rewrite Ascii.eqb_refl. reflexivity.
    + 
      assert (Hpeek : peekIs "}" (mark false (sepBy pr "}" (x :: t) ++ rest))
                      = false).
      { cbn [sepBy]. unfold pr at 1, quote. cbn [append].
        rewrite mark_nonword by reflexivity. reflexivity. }
      rewrite Hpeek.
      rewrite (parseSeq_sepBy (parseMember (parseValue n)) pr
                 (fun kv => (rewriteStr (fst kv), rewriteJson (snd kv))) "}");
        [reflexivity | reflexivity | reflexivity | | discriminate | lia].
      rewrite Forall_forall in IH |- *. intros y Hy prev' rest'.
      apply parseMember_mark. intros p r. apply IH; [exact Hy |].
      specialize (Hin y Hy). lia.
Qed.

Lemma sepBy_length {A : Type} (f : A -> nat) (pr : A -> string)
      (close : ascii) (l : list A) :
  Forall (fun x => f x <= String.length (pr x)) l ->
  list_sum (map f l) <= String.length (sepBy pr close l).
Proof.
  induction 1 as [|x t Hx Ht IH]; simpl; [lia |].
  rewrite length_append. destruct t; simpl in *; lia.
Qed.

Lemma size_le_length (v : json) : size v <= String.length (JSON_stringify v).
Proof.
  induction v as [s | l IH | l IH] using json_ind.
  - simpl. lia.
  - change (S (list_sum (map size l))
            <= S (String.length (sepBy JSON_stringify "]" l))).
    apply le_n_S. now apply sepBy_length.
  - set (pr := fun kv : string * json =>
                 (quote (fst kv) ++ String ":" (JSON_stringify (snd kv)))%string).
    change (S (list_sum (map (fun kv : string * json => size (snd kv)) l))
            <= S (String.length (sepBy pr "}" l))).
    apply le_n_S. apply sepBy_length.
    apply Forall_impl with (2 := IH). intros kv H. unfold pr.
    rewrite length_append. simpl. lia.
Qed.

(** The round trip of the handler: serialize, replace, parse.  It never
    fails, and it rewrites every key and every string of the value. *)
Lemma roundtrip (v : json) :
  JSON_parse (replaceOps (JSON_stringify v)) = Some (rewriteJson v).
Proof.
  unfold JSON_parse. rewrite replaceOps_mark.
  pose proof (parseValue_mark v
                (S (String.length (mark false (JSON_stringify v)))) false "")
    as H.
  rewrite append_nil_r in H. rewrite H; [reflexivity |].
  pose proof (size_le_length v). pose proof (mark_length (JSON_stringify v) false).
  lia.
Qed.

(** ** The filter of the handler *)

(** The filter handed to the store is the rewritten copy of the query
    without its reserved keys; parsing it never fails. *)
Lemma filterOf_rewrite (q : object) :
  filterOf q = Some (rewriteJson (JObj (reqQuery q))).
Proof. unfold filterOf, queryStr. apply roundtrip. Qed.

Lemma deleteProp_In (p : string) (o : object) (kv : string * json) :
  In kv (deleteProp p o) <-> In kv o /\ fst kv <> p.
Proof.
  unfold deleteProp. rewrite filter_In, negb_true_iff, String.eqb_neq.
  reflexivity.
Qed.

Lemma reqQuery_In (q : object) (kv : string * json) :
  In kv (reqQuery q) <-> In kv q /\ ~ In (fst kv) removeFields.
Proof.
  unfold reqQuery, removeFields. cbn [fold_left In].
  rewrite !deleteProp_In. intuition congruence.
Qed.

Lemma deleteProp_id (p : string) (o : object) :
  ~ In p (map fst o) -> deleteProp p o = o.
Proof.
  unfold deleteProp. induction o as [|[k v] o IH]; intros H; [reflexivity |].
  simpl in *. destruct (String.eqb_spec k p) as [-> | _].
  - exfalso. apply H. now left.
  - simpl. f_equal. apply IH. intros Hin. apply H. now right.
Qed.

Lemma reqQuery_id (q : object) :
  (forall k, In k removeFields -> ~ In k (map fst q)) -> reqQuery q = q.
Proof.
  intros H. unfold reqQuery, removeFields in *. cbn [fold_left].
  rewrite (deleteProp_id "select") by (apply H; simpl; tauto).
  rewrite (deleteProp_id "sort") by (apply H; simpl; tauto).
  rewrite (deleteProp_id "page") by (apply H; simpl; tauto).
  rewrite (deleteProp_id "limit") by (apply H; simpl; tauto).
  rewrite (deleteProp_id "search") by (apply H; simpl; tauto).
  reflexivity.
Qed.

(** ** Objects built by the parser *)

Lemma getProp_None (k : string) (o : object) :
  ~ In k (map fst o) -> getProp k o = None.
Proof.
  induction o as [|[k' v] o IH]; intros H; [reflexivity |]. simpl in *.
  destruct (String.eqb_spec k' k) as [-> | _].
  - exfalso. apply H. now left.
  - apply IH. intros Hin. apply H. now right.
Qed.

Lemma getProp_In (k : string) (v : json) (o : object) :
  NoDup (map fst o) -> In (k, v) o -> getProp k o = Some v.
Proof.
  induction o as [|[k' v'] o IH]; intros Hnd Hin; [destruct Hin |].
  simpl in *. inversion Hnd as [|? ? Hk Hnd']; subst.
  destruct Hin as [E | Hin].
  - inversion E; subst. now rewrite String.eqb_refl.
  - destruct (String.eqb_spec k' k) as [-> | _]; [| now apply IH].
    exfalso. apply Hk. apply in_map_iff. now exists (k, v).
Qed.

Lemma setProp_keys (k : string) (v : json) (o : object) (k' : string) :
  In k' (map fst (setProp k v o)) -> k' = k \/ In k' (map fst o).
Proof.
  induction o as [|[a b] o IH]; simpl.
  - intros [<- | []]. now left.
  - destruct (String.eqb_spec a k) as [-> | _]; simpl.
    + intros [<- | H]; [now left | right; now right].
    + intros [<- | H]; [right; now left |].
      destruct (IH H) as [-> | H']; [now left | right; now right].
Qed.

Lemma fromEntries_keys (l : list (string * json)) (k : string) :
  In k (map fst (fromEntries l)) -> In k (map fst l).
Proof.
  unfold fromEntries.
  assert (H : forall acc,
             In k (map fst (fold_left
                              (fun o kv => setProp (fst kv) (snd kv) o) l acc)) ->
             In k (map fst acc) \/ In k (map fst l)).
  { induction l as [|[a b] l IH]; intros acc; simpl; [now left |].
    intros Hin. destruct (IH _ Hin) as [H | H]; [| right; now right].
    destruct (setProp_keys _ _ _ _ H) as [-> | H']; [right | ]; now left. }
  intros Hin. destruct (H [] Hin) as [[] | Hl]. exact Hl.
Qed.

Lemma setProp_fresh (k : string) (v : json) (o : object) :
  ~ In k (map fst o) -> setProp k v o = (o ++ [(k, v)])%list.
Proof.
  induction o as [|[a b] o IH]; intros H; [reflexivity |]. simpl in *.
  destruct (String.eqb_spec a k) as [-> | _].
  - exfalso. apply H. now left.
  - f_equal. apply IH. intros Hin. apply H. now right.
Qed.

(** Members with distinct keys are kept as they come. *)
Lemma fromEntries_NoDup (l : list (string * json)) :
  NoDup (map fst l) -> fromEntries l = l.
Proof.
  unfold fromEntries.
  assert (H : forall acc,
             NoDup (map fst (acc ++ l)%list) ->
             fold_left (fun o kv => setProp (fst kv) (snd kv) o) l acc
             = (acc ++ l)%list).
  { induction l as [|[a b] l IH]; intros acc Hnd; simpl.
    - now rewrite app_nil_r.
    - assert (Hfresh : ~ In a (map fst acc)).
      { rewrite map_app in Hnd. simpl in Hnd.
        apply NoDup_remove_2 in Hnd. intros Hin. apply Hnd.
        apply in_or_app. now left. }
      rewrite setProp_fresh by exact Hfresh.
      rewrite IH; rewrite <- app_assoc; [reflexivity | exact Hnd]. }
  intros Hnd. now apply (H []).
Qed.

(** ** The rewrite of one text *)

Section MarkWith.
Variable after : ascii -> bool.

(** Output without a dollar sign is the input. *)
Lemma markWith_noDollar (s : string) :
  forall prev,
    hasChar "$" (markWith after prev s) = false -> markWith after prev s = s.
Proof.
  induction s as [|c r IH]; intros prev; [reflexivity |]. cbn [markWith].
  destruct (negb prev && opHere (String c r)); cbn [hasChar].
  - rewrite Ascii.eqb_refl. discriminate.
  - intros H. apply orb_false_iff in H as [_ H]. f_equal. now apply IH.
Qed.
End MarkWith.

Lemma markWith_clean (s : string) :
  forall prev,
    hasOpWord prev s = false ->
    markWith (fun c => isWord c || isControl c) prev s = s.
Proof.
  induction s as [|c r IH]; intros prev H; [reflexivity |].
  cbn [hasOpWord markWith] in *. apply orb_false_iff in H as [H1 H2].
  rewrite H1. f_equal. now apply IH.
Qed.

Lemma rewriteStr_clean (s : string) :
  hasOpWord false s = false -> rewriteStr s = s.
Proof. apply markWith_clean. Qed.

Lemma rewriteStr_operator (op : string) :
  In op operators -> rewriteStr op = String "$" op.
Proof.
  unfold operators. intros H. in_cases H reflexivity.
Qed.

Lemma rewriteStr_reserved (s k : string) :
  In k removeFields -> rewriteStr s = k -> s = k.
Proof.
  intros Hk E. rewrite <- E. symmetry. unfold rewriteStr in *.
  apply markWith_noDollar. rewrite E.
  unfold removeFields in Hk. in_cases Hk reflexivity.
Qed.

(** ** Split and join *)

Lemma split_nonempty (sep : ascii) (s : string) : split sep s <> [].
Proof.
  destruct s as [|c r]; simpl; [discriminate |].
  destruct (Ascii.eqb c sep); [discriminate |].
  destruct (split sep r); discriminate.
Qed.

Lemma split_plain (sep : ascii) (s : string) :
  hasChar sep s = false -> split sep s = [s].
Proof.
  induction s as [|c r IH]; [reflexivity |]. cbn [hasChar split].
  intros H. apply orb_false_iff in H as [H1 H2].
  rewrite H1, IH by exact H2. reflexivity.
Qed.

Lemma split_append (sep : ascii) (a b : string) :
  hasChar sep a = false ->
  split sep (a ++ String sep b) = a :: split sep b.
Proof.
  induction a as [|c r IH]; cbn [hasChar append split].
  - intros _. now rewrite Ascii.eqb_refl.
  - intros H. apply orb_false_iff in H as [H1 H2].
    rewrite H1, IH by exact H2. reflexivity.
Qed.

(** Joining with a separator the tokens do not contain and splitting on
    it gives the tokens back. *)
Lemma split_join (sep : ascii) (l : list string) :
  l <> [] ->
  Forall (fun tk => hasChar sep tk = false) l ->
  split sep (join (String sep "") l) = l.
Proof.
  intros Hne H. induction H as [|x t Hx Ht IH]; [congruence |].
  destruct t as [|y t].
  - simpl. now apply split_plain.
  - cbn [join]. cbn [append]. rewrite split_append by exact Hx.
    f_equal. apply IH. discriminate.
Qed.

(** ** The handler as a whole *)

Section HandlerFacts.
Variable Doc : Type.
Variable matches : json -> Doc -> bool.

(** Up to the two [parseInt]s the handler stops only when [select] or
    [sort] is present and not a string. *)
Lemma getMovies_Ok (q : object) (db : list Doc) :
  isText (getProp "select" q) = true ->
  isText (getProp "sort" q) = true ->
  exists r, getMovies Doc matches q db = Ok r.
Proof.
  unfold getMovies. rewrite filterOf_rewrite. intros Hsel Hsort.
  destruct (getProp "select" q) as [[s | l | l] |]; try discriminate Hsel;
    destruct (getProp "sort" q) as [[s' | l' | l'] |]; try discriminate Hsort;
    try destruct s; try destruct s'; simpl; eexists; reflexivity.
Qed.

Lemma getMovies_inv (q : object) (db : list Doc) (r : Response) :
  getMovies Doc matches q db = Ok r ->
  let filter := rewriteJson (JObj (reqQuery q)) in
  total r = countDocuments Doc matches filter db /\
  pagination r = paginationOf (pageOf q) (limitOf q) (total r) /\
  skip (query r) = startIndex (pageOf q) (limitOf q) /\
  limit (query r) = limitOf q /\
  conditions (query r)
  = (match getProp "search" q with
     | Some search =>
         if truthy (Some search) then [filter; searchCondition search]
         else [filter]
     | None => [filter]
     end) /\
  Ok (sortBy (query r))
  = (match getProp "sort" q with
     | Some srt => if truthy (Some srt) then splitJoin srt else Ok "-createdAt"
     | None => Ok "-createdAt"
     end).
Proof.
  unfold getMovies. rewrite filterOf_rewrite. cbv zeta.
  destruct (match getProp "select" q with
            | Some sel => _ | None => _ end) as [fields | e];
    [| discriminate].
  cbn [bind].
  destruct (match getProp "sort" q with
            | Some srt => _ | None => _ end) as [sort | e];
    [| discriminate].
  cbn [bind]. intros E. inversion E; subst; clear E. cbn.
  repeat split; reflexivity.
Qed.
End HandlerFacts.

(** ** The handler with all that can stop it *)

Section FullFacts.
Variable Doc : Type.
Variable matches : json -> Doc -> bool.
Variable countRejects : json -> bool.
Variable findRejects : Query -> bool.

(** What the handler answers is what it has built, for a [page] and a
    [limit] that convert and a count and a query the store takes. *)
Lemma full_inv (q : object) (db : list Doc) (r : Response) :
  Full.getMovies Doc matches countRejects findRejects q db = Ok r ->
  getMovies Doc matches q db = Ok r /\
  Full.converts q = true /\
  Full.accepts Doc matches countRejects findRejects q db = true.
Proof.
  unfold Full.getMovies, Full.accepts, Full.converts.
  rewrite filterOf_rewrite.
  destruct (getMovies Doc matches q db) as [r' | e]; cbn [bind];
    [| discriminate].
  destruct (throwsOn (getProp "page" q)); [discriminate |].
  destruct (throwsOn (getProp "limit" q)); [discriminate |].
  cbn [orb negb andb].
  destruct (countRejects _); [discriminate |].
  destruct (findRejects _); [discriminate |].
  intros E. injection E as <-. auto.
Qed.

Lemma full_Ok (q : object) (db : list Doc) (r : Response) :
  getMovies Doc matches q db = Ok r ->
  Full.converts q = true ->
  Full.accepts Doc matches countRejects findRejects q db = true ->
  Full.getMovies Doc matches countRejects findRejects q db = Ok r.
Proof.
  unfold Full.getMovies, Full.accepts, Full.converts.
  rewrite filterOf_rewrite. intros -> Hc Ha. cbn [bind].
  apply andb_true_iff in Hc as [Hp Hl]. apply negb_true_iff in Hp, Hl.
  rewrite Hp, Hl. cbn [orb].
  apply andb_true_iff in Ha as [H1 H2]. apply negb_true_iff in H1, H2.
  now rewrite H1, H2.
Qed.

Lemma full_answers (q : object) (db : list Doc) :
  isText (getProp "select" q) = true ->
  isText (getProp "sort" q) = true ->
  Full.converts q = true ->
  Full.accepts Doc matches countRejects findRejects q db = true ->
  exists r, Full.getMovies Doc matches countRejects findRejects q db = Ok r.
Proof.
  intros Hsel Hsort Hc Ha.
  destruct (getMovies_Ok Doc matches q db Hsel Hsort) as [r Hr].
  exists r. now apply full_Ok.
Qed.

(** A [select] or a [sort] that is there and not a text stops the
    handler at its [split]. *)
Lemma getMovies_TypeError (q : object) (db : list Doc) :
  isText (getProp "select" q) = false \/ isText (getProp "sort" q) = false ->
  getMovies Doc matches q db = Err TypeError.
Proof.
  unfold getMovies. rewrite filterOf_rewrite.
  destruct (getProp "select" q) as [[s | l | l] |];
    destruct (getProp "sort" q) as [[s' | l' | l'] |];
    try destruct s; try destruct s'; cbn; intros [H | H];
    try discriminate H; reflexivity.
Qed.

Lemma full_TypeError (q : object) (db : list Doc) :
  isText (getProp "select" q) = false \/ isText (getProp "sort" q) = false
  \/ Full.converts q = false ->
  Full.getMovies Doc matches countRejects findRejects q db = Err TypeError.
Proof.
  intros H. unfold Full.getMovies.
  destruct (isText (getProp "select" q)) eqn:Hsel;
    [| rewrite getMovies_TypeError by (now left); reflexivity].
  destruct (isText (getProp "sort" q)) eqn:Hsort;
    [| rewrite getMovies_TypeError by (now right); reflexivity].
  destruct H as [H | [H | H]]; try discriminate H.
  destruct (getMovies_Ok Doc matches q db Hsel Hsort) as [r ->]. cbn [bind].
  unfold Full.converts in H. apply andb_false_iff in H.
  destruct H as [H | H]; apply negb_false_iff in H; rewrite H;
    [reflexivity | now rewrite orb_true_r].
Qed.

End FullFacts.

(** ** Facts about the reference store *)

Lemma ref_matches_or (alts : list json) (d : RefStore.Doc) :
  RefStore.matches (JObj [("$or", JArr alts)]) d
  = existsb (fun a => RefStore.matches a d) alts.
Proof.
  cbn [RefStore.matches forallb snd fst]. rewrite String.eqb_refl.
  cbn [andb]. apply andb_true_r.
Qed.

Lemma ref_matches_regex (f p : string) (d : RefStore.Doc) :
  RefStore.literal p = true ->
  RefStore.matches (regexOn f (JStr p)) d
  = RefStore.occurs p (RefStore.field f d).
Proof.
  intros H. unfold regexOn, RefStore.occurs.
  cbn [RefStore.matches forallb snd fst]. rewrite !String.eqb_refl.
  cbn [andb]. rewrite andb_true_r.
  destruct (RefStore.field f d); [| reflexivity].
  unfold RefStore.regexMatches. now rewrite H.
Qed.

Lemma NoDup_map_filter {A B : Type} (f : A -> B) (p : A -> bool) (l : list A) :
  NoDup (map f l) -> NoDup (map f (List.filter p l)).
Proof.
  induction l as [|x l IH]; intros H; [exact H |]. simpl in *.
  inversion H as [|? ? Hx Hl]; subst. destruct (p x); simpl.
  - constructor; [| now apply IH]. intros Hin. apply Hx.
    apply in_map_iff in Hin as (y & Hy & Hin). apply filter_In in Hin as [Hin _].
    apply in_map_iff. now exists y.
  - now apply IH.
Qed.

Lemma NoDup_reqQuery (q : object) :
  NoDup (map fst q) -> NoDup (map fst (reqQuery q)).
Proof.
  intros H. unfold reqQuery, removeFields, deleteProp. cbn [fold_left].
  repeat apply NoDup_map_filter. exact H.
Qed.

(** With distinct keys free of operator words, the filter keeps the keys
    and rewrites the values. *)
Lemma filterOf_clean_keys (q : object) :
  NoDup (map fst q) ->
  (forall k, In k (map fst q) -> hasOpWord false k = false) ->
  filterOf q
  = Some (JObj (map (fun kv => (fst kv, rewriteJson (snd kv))) (reqQuery q))).
Proof.
  intros Hnd Hclean. rewrite filterOf_rewrite. cbn [rewriteJson].
  assert (E : map (fun kv : string * json =>
                     (rewriteStr (fst kv), rewriteJson (snd kv))) (reqQuery q)
              = map (fun kv => (fst kv, rewriteJson (snd kv))) (reqQuery q)).
  { apply map_ext_in. intros kv Hin. f_equal. apply rewriteStr_clean.
    apply Hclean. apply reqQuery_In in Hin as [Hin _].
    apply in_map_iff. now exists kv. }
  rewrite E, fromEntries_NoDup; [reflexivity |].
  rewrite map_map. cbn [fst]. now apply NoDup_reqQuery.
Qed.

(** ** The rewrite is one-to-one *)

Section Unmark.

Variable after : ascii -> bool.
Hypothesis after_word : forall c, isWord c = true -> after c = true.
Hypothesis after_dollar : after "$" = false.

(** Inside a word nothing is inserted, so an operator word is seen in the
    output where it stands in the input. *)
Lemma matchAlt_marked (tk : string) :
  allWord tk = true ->
  forall s, matchAlt (markWith after true s) tk = matchAlt s tk.
Proof.
  unfold matchAlt. induction tk as [|a tk IH]; intros Hw s.
  - cbn [startsWith]. destruct s as [|d r]; reflexivity.
  - cbn [allWord] in Hw. apply andb_true_iff in Hw as [Ha Hw].
    destruct s as [|d r]; [reflexivity |].
    cbn [markWith negb andb startsWith].
    destruct (Ascii.eqb_spec a d) as [<- | _]; [| reflexivity].
    rewrite (after_word a Ha). now apply IH.
Qed.

Lemma opHere_marked (c : ascii) (r : string) :
  opHere (String c (markWith after (after c) r)) = opHere (String c r).
Proof.
  unfold opHere.
  assert (H : forall l, (forall tk, In tk l -> allWord tk = true /\ tk <> "") ->
            existsb (matchAlt (String c (markWith after (after c) r))) l
            = existsb (matchAlt (String c r)) l).
  { induction l as [|tk l IH]; intros Hl; [reflexivity |].
    cbn [existsb]. rewrite IH by (intros t Ht; apply Hl; now right).
    f_equal. destruct (Hl tk (or_introl eq_refl)) as [Hw Hne].
    destruct tk as [|a tk]; [congruence |].
    cbn [allWord] in Hw. apply andb_true_iff in Hw as [Ha Hw].
    unfold matchAlt. cbn [startsWith].
    destruct (Ascii.eqb_spec a c) as [<- | _]; [| reflexivity].
    rewrite (after_word a Ha). now apply matchAlt_marked. }
  apply H. exact operators_words.
Qed.

(** Dropping the dollar signs before operator words undoes the marking. *)
Lemma unmark_markWith (s : string) :
  forall prev, unmark (markWith after prev s) = s.
Proof.
  induction s as [|c r IH]; intros prev; [reflexivity |].
  cbn [markWith].
  destruct (negb prev && opHere (String c r)) eqn:E.
  - apply andb_true_iff in E as [_ Hop].
    cbn [unmark]. rewrite Ascii.eqb_refl, opHere_marked, Hop. cbn [andb].
    pose proof (opHere_head _ Hop) as Hc. cbn [headIsWord] in Hc.
    cbn [unmark].
    replace (Ascii.eqb c "$") with false
      by (symmetry; apply Ascii.eqb_neq; intros ->; discriminate Hc).
    cbn [andb]. now rewrite IH.
  - cbn [unmark].
    destruct (Ascii.eqb_spec c "$") as [-> | _]; [| cbn [andb]; now rewrite IH].
    rewrite after_dollar.
    assert (Hno : opHere (markWith after false r) = false).
    { destruct r as [|d r']; [reflexivity |]. cbn [markWith negb andb].
      destruct (opHere (String d r')) eqn:Hd.
      - now apply opHere_nonword.
      - now rewrite opHere_marked. }
    rewrite Hno. cbn [andb]. f_equal. rewrite <- after_dollar. apply IH.
Qed.

End Unmark.

(** The rewrite of a text is one-to-one. *)
Lemma rewriteStr_inj (s t : string) : rewriteStr s = rewriteStr t -> s = t.
Proof.
  intros H. unfold rewriteStr in H.
  rewrite <- (unmark_markWith (fun c => isWord c || isControl c)) with
    (s := s) (prev := false);
    [| intros c Hc; now rewrite Hc | reflexivity].
  rewrite H. apply unmark_markWith; [intros c Hc; now rewrite Hc | reflexivity].
Qed.

Lemma NoDup_map_rewriteStr (l : list string) :
  NoDup l -> NoDup (map rewriteStr l).
Proof.
  induction 1 as [|x l Hx Hl IH]; simpl; constructor; [| exact IH].
  intros Hin. apply in_map_iff in Hin as (y & Hy & Hin).
  apply rewriteStr_inj in Hy. now subst.
Qed.

(** ** The listing operation: total, filter and search *)

(** C1, at a failing input.  For [?search=batman] on the two sample
    records the handler answers [total = 2], the number of records that
    match the bracket and equality filters alone, while one record matches
    the filters and the search, which the data query applies; and for any
    store and request the total counts the records matching the filter
    document only. *)
Theorem total_ignores_search :
  (exists r,
      getMovies RefStore.Doc RefStore.matches
                [("search", JStr "batman")] RefStore.sampleMovies = Ok r /\
      total r = 2%Z /\
      List.length (matching RefStore.Doc RefStore.matches (query r)
                            RefStore.sampleMovies) = 1) /\
  (forall (Doc : Type) (matches : json -> Doc -> bool) q db r,
      getMovies Doc matches q db = Ok r ->
      total r
      = Z.of_nat (List.length
                    (List.filter (matches (rewriteJson (JObj (reqQuery q)))) db))).
Proof.
  split.
  - eexists. split; [vm_compute; reflexivity |]. split; reflexivity.
  - intros Doc matches q db r H.
    now destruct (getMovies_inv Doc matches q db r H) as (Ht & _).
Qed.




(** C4.  Whatever the parameter set, the filter has no property named
    [select], [sort], [page], [limit] or [search]; and for
    [?sort=-rating&rating[gte]=8] the handler filters on [rating] with
    [$gte] and sorts by [rating], descending. *)
Theorem reserved_keys_never_filter :
  (forall q, exists l,
        filterOf q = Some (JObj l) /\
        forall k, In k removeFields -> getProp k l = None) /\
  (forall (Doc : Type) (matches : json -> Doc -> bool) db,
      exists r,
        getMovies Doc matches
                  [("sort", JStr "-rating"); ("rating", JObj [("gte", JStr "8")])]
                  db = Ok r /\
        conditions (query r) = [JObj [("rating", JObj [("$gte", JStr "8")])]] /\
        sortBy (query r) = "-rating" /\
        RefStore.readSort (sortBy (query r)) = [("rating", RefStore.Desc)]).
Proof.
  split.
  - intros q. rewrite filterOf_rewrite. cbn [rewriteJson].
    eexists. split; [reflexivity |]. intros k Hk.
    apply getProp_None. intros Hin. apply fromEntries_keys in Hin.
    rewrite map_map in Hin. cbn [fst] in Hin.
    apply in_map_iff in Hin as (kv & E & Hin).
    apply (rewriteStr_reserved _ k Hk) in E.
    apply reqQuery_In in Hin as [_ Hnot]. apply Hnot. now rewrite E.
  - intros Doc matches db. eexists. split.
    + unfold getMovies.
      replace (filterOf [("sort", JStr "-rating");
                         ("rating", JObj [("gte", JStr "8")])])
        with (Some (JObj [("rating", JObj [("$gte", JStr "8")])]))
        by (vm_compute; reflexivity).
      reflexivity.
    + repeat split; reflexivity.
Qed.

(** C9.  The replace runs over the whole serialized text: [?title=gt]
    gives the filter [{ title: "$gt" }], a field named [in] gives the key
    [$in], and for every parameter set each key and each string value, at
    any depth, is rewritten. *)
Theorem rewrite_reaches_values_and_names :
  filterOf [("title", JStr "gt")] = Some (JObj [("title", JStr "$gt")]) /\
  filterOf [("in", JStr "x")] = Some (JObj [("$in", JStr "x")]) /\
  filterOf [("title", JStr "gt")] <> Some (JObj [("title", JStr "gt")]) /\
  (forall q, filterOf q = Some (rewriteJson (JObj (reqQuery q)))).
Proof.
  split; [vm_compute; reflexivity |]. split; [vm_compute; reflexivity |].
  split; [vm_compute; discriminate |]. exact filterOf_rewrite.
Qed.

(** ** Search *)


Section SearchFacts.

(** A store that reads [$or] as disjunction and, on ASCII text, a
    [$regex] without metacharacters with option [i] as containment up to
    letter case. *)
Variable Doc : Type.
Variable matches : json -> Doc -> bool.
Variable countRejects : json -> bool.
Variable findRejects : Query -> bool.
Variable text : string -> Doc -> option string.
Hypothesis matches_or :
  forall alts d,
    matches (JObj [("$or", JArr alts)]) d = existsb (fun a => matches a d) alts.
Hypothesis matches_regex :
  forall f p d,
    RefStore.literal p = true -> RefStore.isAscii p = true ->
    RefStore.asciiField (text f d) = true ->
    matches (regexOn f (JStr p)) d = RefStore.occurs p (text f d).


End SearchFacts.


(** ** Pagination *)

Local Open Scope Z_scope.



(** *** Numerals *)

(** Reading the digits from the left gives the number they denote. *)
Lemma digits_value (s : string) :
  forall acc,
    allDigits s = true ->
    digits acc s = acc * 10 ^ Z.of_nat (String.length s) + decimalValue s.
Proof.
  induction s as [|c r IH]; intros acc H.
  - cbn [digits decimalValue String.length Z.of_nat]. rewrite Z.pow_0_r. lia.
  - cbn [allDigits] in H. apply andb_true_iff in H as [Hc Hr].
    cbn [digits decimalValue String.length]. rewrite Hc, (IH _ Hr).
    rewrite Nat2Z.inj_succ, Z.pow_succ_r by lia. ring.
Qed.

(** What follows the digits is not read. *)
Lemma digits_prefix (ds : string) (c : ascii) (rest : string) :
  forall acc,
    isDigit c = false -> digits acc (ds ++ String c rest) = digits acc ds.
Proof.
  induction ds as [|d ds IH]; intros acc Hc.
  - cbn. now rewrite Hc.
  - cbn [append digits]. destruct (isDigit d); [now apply IH | reflexivity].
Qed.

(** A digit is neither white space, nor the start of white space of more
    bytes, nor a sign. *)
Lemma digit_head (c : ascii) (r : string) :
  isDigit c = true ->
  skipSpaces (String c r) = String c r /\
  peekIs "-" (String c r) = false /\ peekIs "+" (String c r) = false.
Proof.
  intros H. destruct c as [[] [] [] [] [] [] [] []]; try discriminate H;
    (split; [destruct r as [|b [|d r]]; reflexivity | split; reflexivity]).
Qed.

(** A run of digits is read as the number it denotes, and so is such a
    run followed by other text. *)
Lemma parseInt_digits (ds rest : string) :
  ds <> "" -> allDigits ds = true -> headIsDigit rest = false ->
  parseInt (ds ++ rest) = Some (decimalValue ds).
Proof.
  intros Hne H Hrest. destruct ds as [|c r]; [congruence |].
  pose proof H as H'. cbn [allDigits] in H'.
  apply andb_true_iff in H' as [Hc _].
  cbn [append]. destruct (digit_head c (r ++ rest) Hc) as (Hs & Hm & Hp).
  unfold parseInt. cbv zeta. rewrite Hs, Hm, Hp. cbn [orb]. rewrite Hc.
  change (String c (r ++ rest)) with (String c r ++ rest)%string.
  assert (E : digits 0 (String c r ++ rest) = digits 0 (String c r)).
  { destruct rest as [|d rest].
    - now rewrite append_nil_r.
    - now apply digits_prefix. }
  rewrite E, (digits_value _ 0 H). reflexivity.
Qed.

(** Text that, after its white space, starts with a character other than
    a sign and a digit is not a number. *)
Lemma parseInt_nonnumeric (t : string) (c : ascii) (rest : string) :
  skipSpaces t = String c rest ->
  isDigit c = false -> c <> "-"%char -> c <> "+"%char ->
  parseInt t = None.
Proof.
  intros Hs Hd Hm Hp. unfold parseInt. cbv zeta. rewrite Hs. cbn [peekIs].
  apply Ascii.eqb_neq in Hm, Hp. rewrite Hm, Hp. cbn [orb]. now rewrite Hd.
Qed.




(** C7, the claim as stated fails: [page=-2] and [limit=-5] are kept. *)
Lemma window_bounds_counterexample :
  ~ (1 <= pageOf [("page", JStr "-2"); ("limit", JStr "-5")] /\
     1 <= limitOf [("page", JStr "-2"); ("limit", JStr "-5")]).
Proof. vm_compute. intros [H _]. now apply H. Qed.

(** C7, amended.  The page number and the page size are never zero, and
    each is at least 1 unless the value supplied parses to a negative
    integer, which is then the page number or the page size. *)
Theorem window_bounds (q : object) :
  pageOf q <> 0 /\ limitOf q <> 0 /\
  (1 <= pageOf q \/
   (pageOf q < 0 /\ parseIntOf (getProp "page" q) = Some (pageOf q))) /\
  (1 <= limitOf q \/
   (limitOf q < 0 /\ parseIntOf (getProp "limit" q) = Some (limitOf q))).
Proof.
  unfold pageOf, limitOf, orDefault.
  destruct (parseIntOf (getProp "page" q)) as [n |];
    destruct (parseIntOf (getProp "limit" q)) as [m |];
    try destruct (Z.eqb_spec n 0); try destruct (Z.eqb_spec m 0);
    repeat split; try lia;
    try (destruct (Z_lt_le_dec n 0); [right; split; [lia | reflexivity] | left; lia]);
    try (destruct (Z_lt_le_dec m 0); [right; split; [lia | reflexivity] | left; lia]);
    left; lia.
Qed.

(** C10.  [page=0] gives page 1 and [limit=0] gives limit 10, as a value
    that is not a number does, while [page=-2] and [limit=-5] are kept;
    in general a value that parses to zero gives the default and a value
    that parses to a negative integer is kept. *)
Theorem zero_and_negative_pagination :
  pageOf [("page", JStr "0")] = 1 /\
  limitOf [("limit", JStr "0")] = 10 /\
  pageOf [("page", JStr "-2")] = -2 /\
  limitOf [("limit", JStr "-5")] = -5 /\
  (forall q, parseIntOf (getProp "page" q) = Some 0 -> pageOf q = 1) /\
  (forall q, parseIntOf (getProp "limit" q) = Some 0 -> limitOf q = 10) /\
  (forall q n, parseIntOf (getProp "page" q) = Some n -> n < 0 -> pageOf q = n) /\
  (forall q n, parseIntOf (getProp "limit" q) = Some n -> n < 0 ->
               limitOf q = n).
Proof.
  unfold pageOf, limitOf, orDefault.
  repeat split; try reflexivity.
  - now intros q ->.
  - now intros q ->.
  - intros q n -> Hn. destruct (Z.eqb_spec n 0); [lia | reflexivity].
  - intros q n -> Hn. destruct (Z.eqb_spec n 0); [lia | reflexivity].
Qed.

Lemma zero_and_negative_pagination_witness :
  pageOf [("page", JStr "0"); ("limit", JStr "-5")] = 1 /\
  limitOf [("page", JStr "0"); ("limit", JStr "-5")] = -5.
Proof.
  destruct zero_and_negative_pagination as (_ & _ & _ & _ & Hz & _ & _ & Hn).
  split; [apply Hz; reflexivity | apply Hn; [reflexivity | lia]].
Defined.

(** ** Sort *)

Local Close Scope Z_scope.

Lemma setKey_fresh (f : string) (d : RefStore.direction)
      (keys : list (string * RefStore.direction)) :
  ~ In f (map fst keys) -> RefStore.setKey f d keys = (keys ++ [(f, d)])%list.
Proof.
  induction keys as [|[g e] keys IH]; intros H; [reflexivity |].
  cbn [RefStore.setKey app]. cbn [map fst In] in H.
  destruct (String.eqb_spec g f) as [-> | _]; [exfalso; apply H; now left |].
  rewrite IH; [reflexivity |]. intros Hin. apply H. now right.
Qed.

(** Tokens that name distinct fields are set one after the other. *)
Lemma readKeys_fresh (tokens : list string) :
  forall keys,
    Forall (fun tk => namesField tk = true) tokens ->
    NoDup (map fst keys ++ map (fun tk => fst (RefStore.readToken tk)) tokens) ->
    fold_left
      (fun keys tk =>
         let (f, d) := RefStore.readToken tk in
         if RefStore.isSpecialProperty f then keys else RefStore.setKey f d keys)
      tokens keys
    = (keys ++ map RefStore.readToken tokens)%list.
Proof.
  induction tokens as [|tk tokens IH]; intros keys Hn Hnd.
  - cbn. now rewrite app_nil_r.
  - inversion Hn as [|? ? Htk Hrest]; subst. cbn [fold_left map].
    unfold namesField in Htk. apply andb_true_iff in Htk as [_ Hsp].
    apply negb_true_iff in Hsp.
    cbn [map] in Hnd. destruct (RefStore.readToken tk) as [f d] eqn:E.
    cbn [fst] in *. rewrite Hsp.
    assert (Hf : ~ In f (map fst keys)).
    { intros Hin. apply NoDup_remove_2 in Hnd. apply Hnd.
      apply in_or_app. now left. }
    rewrite (setKey_fresh f d keys Hf), IH; [| exact Hrest |].
    + now rewrite <- app_assoc.
    + rewrite map_app. cbn [map fst]. rewrite <- app_assoc. exact Hnd.
Qed.

Lemma ownKeys_plain (keys : list (string * RefStore.direction)) :
  Forall (fun k => RefStore.isIndex (fst k) = false) keys ->
  RefStore.ownKeys keys = keys.
Proof.
  intros H. unfold RefStore.ownKeys.
  assert (E1 : List.filter (fun k => RefStore.isIndex (fst k)) keys = []).
  { induction H as [|k t Hk Ht IH]; [reflexivity |]. cbn [List.filter].
    now rewrite Hk. }
  assert (E2 : List.filter (fun k => negb (RefStore.isIndex (fst k))) keys
               = keys).
  { clear E1. induction H as [|k t Hk Ht IH]; [reflexivity |].
    cbn [List.filter]. rewrite Hk. cbn [negb]. now rewrite IH. }
  now rewrite E1, E2.
Qed.

(** The store reads the joined tokens back one by one, in their order. *)
Lemma readSort_join (tokens : list string) :
  tokens <> [] ->
  Forall (fun tk => namesField tk = true) tokens ->
  NoDup (map (fun tk => fst (RefStore.readToken tk)) tokens) ->
  RefStore.readSort (join " " tokens) = map RefStore.readToken tokens.
Proof.
  intros Hne H Hnd. unfold RefStore.readSort.
  rewrite (split_join " " tokens Hne).
  - rewrite (readKeys_fresh tokens [] H Hnd). cbn [app].
    apply ownKeys_plain. apply Forall_map.
    apply Forall_impl with (2 := H). intros tk Htk. unfold namesField in Htk.
    apply andb_true_iff in Htk as [Htk _].
    apply andb_true_iff in Htk as [_ Htk]. now apply negb_true_iff in Htk.
  - apply Forall_impl with (2 := H). intros tk Htk. unfold namesField in Htk.
    apply andb_true_iff in Htk as [Htk _].
    apply andb_true_iff in Htk as [Htk _].
    apply andb_true_iff in Htk as [Htk _]. now apply negb_true_iff in Htk.
Qed.




(** * Further properties *)

(** ** The round trip loses nothing *)

Lemma distinctKeys_arr (l : list json) :
  distinctKeys (JArr l) <-> Forall distinctKeys l.
Proof.
  cbn [distinctKeys]. induction l as [|x l IH].
  - split; [constructor | trivial].
  - rewrite IH. split.
    + intros [Hx Hl]. now constructor.
    + intros H. inversion H; subst. now split.
Qed.

Lemma distinctKeys_obj (l : object) :
  distinctKeys (JObj l) <->
  NoDup (map fst l) /\ Forall (fun kv => distinctKeys (snd kv)) l.
Proof.
  cbn [distinctKeys].
  assert (H : (fix all (l0 : object) : Prop :=
                 match l0 with
                 | [] => True
                 | kv :: t => distinctKeys (snd kv) /\ all t
                 end) l <-> Forall (fun kv => distinctKeys (snd kv)) l).
  { induction l as [|x l IH].
    - split; [constructor | trivial].
    - rewrite IH. split.
      + intros [Hx Hl]. now constructor.
      + intros H. inversion H; subst. now split. }
  now rewrite H.
Qed.

(** On a value with distinct keys the parser overwrites nothing. *)
Lemma rewriteJson_rename (v : json) :
  distinctKeys v -> rewriteJson v = renameJson v.
Proof.
  induction v as [s | l IH | l IH] using json_ind; intros Hd.
  - reflexivity.
  - apply distinctKeys_arr in Hd. cbn [rewriteJson renameJson]. f_equal.
    apply map_ext_in. intros x Hx. rewrite Forall_forall in IH, Hd. auto.
  - apply distinctKeys_obj in Hd as [Hnd Hd]. cbn [rewriteJson renameJson].
    f_equal.
    assert (E : map (fun kv : string * json =>
                       (rewriteStr (fst kv), rewriteJson (snd kv))) l
                = map (fun kv => (rewriteStr (fst kv), renameJson (snd kv))) l).
    { apply map_ext_in. intros kv Hkv. rewrite Forall_forall in IH, Hd.
      f_equal. auto. }
    rewrite E. apply fromEntries_NoDup. rewrite map_map. cbn [fst].
    rewrite <- map_map with (f := fst) (g := rewriteStr).
    now apply NoDup_map_rewriteStr.
Qed.

Lemma map_inj_on {A B : Type} (f : A -> B) (l1 : list A) :
  Forall (fun x => forall y, f x = f y -> x = y) l1 ->
  forall l2, map f l1 = map f l2 -> l1 = l2.
Proof.
  induction 1 as [|x l1 Hx Hl IH]; intros [|y l2] E; try discriminate E.
  - reflexivity.
  - simpl in E. injection E as E1 E2. f_equal; auto.
Qed.

Lemma renameJson_inj (v : json) :
  forall w, renameJson v = renameJson w -> v = w.
Proof.
  induction v as [s | l IH | l IH] using json_ind;
    intros [t | m | m] E; cbn [renameJson] in E; try discriminate E.
  - injection E as E. f_equal. now apply rewriteStr_inj.
  - injection E as E. f_equal. now apply (map_inj_on renameJson).
  - injection E as E. f_equal.
    apply (map_inj_on
             (fun kv : string * json =>
                (rewriteStr (fst kv), renameJson (snd kv)))); [| exact E].
    apply Forall_impl with (2 := IH). intros [k v] Hv [k' v'] Ekv.
    cbn [fst snd] in *. injection Ekv as Ek Ev. f_equal.
    + now apply rewriteStr_inj.
    + now apply Hv.
Qed.

Lemma distinctKeys_reqQuery (q : object) :
  distinctKeys (JObj q) -> distinctKeys (JObj (reqQuery q)).
Proof.
  rewrite !distinctKeys_obj. intros [Hnd Hd]. split.
  - now apply NoDup_reqQuery.
  - rewrite Forall_forall in Hd |- *. intros kv Hin.
    apply reqQuery_In in Hin as [Hin _]. auto.
Qed.


(** X2.  For parameters with distinct keys at every level, the filter is
    the non-reserved part of the query with each key and each text
    rewritten in place: it has one property for each such parameter, in
    their order, and none is dropped or overwritten. *)
Theorem filter_keeps_every_parameter (q : object) :
  distinctKeys (JObj q) ->
  filterOf q = Some (renameJson (JObj (reqQuery q))) /\
  exists l,
    filterOf q = Some (JObj l) /\
    List.length l = List.length (reqQuery q) /\
    map fst l = map rewriteStr (map fst (reqQuery q)) /\
    NoDup (map fst l).
Proof.
  intros Hd. apply distinctKeys_reqQuery in Hd.
  rewrite filterOf_rewrite, (rewriteJson_rename _ Hd). split; [reflexivity |].
  cbn [renameJson]. eexists. split; [reflexivity |].
  apply distinctKeys_obj in Hd as [Hnd _].
  rewrite length_map, !map_map. cbn [fst].
  split; [reflexivity |]. split; [reflexivity |].
  rewrite <- map_map with (f := fst) (g := rewriteStr).
  now apply NoDup_map_rewriteStr.
Qed.

Lemma filter_keeps_every_parameter_witness :
  exists l,
    filterOf [("in", JStr "a"); ("$in", JStr "b"); ("page", JStr "2");
              ("lt", JObj [("lt", JStr "lt"); ("$lt", JStr "x")])]
    = Some (JObj l) /\
    map fst l = ["$in"; "$$in"; "$lt"].
Proof.
  destruct (filter_keeps_every_parameter
              [("in", JStr "a"); ("$in", JStr "b"); ("page", JStr "2");
               ("lt", JObj [("lt", JStr "lt"); ("$lt", JStr "x")])])
    as (_ & l & Hl & _ & Hk & _).
  - cbn. repeat split; repeat constructor; simpl; intuition discriminate.
  - exists l. split; [exact Hl |]. rewrite Hk. reflexivity.
Defined.

(** X3.  The translation is one-to-one: two queries with distinct keys
    that give the same filter have the same non-reserved parameters. *)
Theorem filter_determines_parameters (q1 q2 : object) :
  distinctKeys (JObj q1) -> distinctKeys (JObj q2) ->
  filterOf q1 = filterOf q2 ->
  reqQuery q1 = reqQuery q2.
Proof.
  intros H1 H2 E.
  apply distinctKeys_reqQuery in H1, H2.
  rewrite !filterOf_rewrite, (rewriteJson_rename _ H1),
    (rewriteJson_rename _ H2) in E.
  assert (E' : renameJson (JObj (reqQuery q1)) = renameJson (JObj (reqQuery q2)))
    by congruence.
  apply renameJson_inj in E'. congruence.
Qed.

Lemma filter_determines_parameters_witness :
  reqQuery [("rating", JObj [("gte", JStr "8")]); ("page", JStr "1")]
  = reqQuery [("sort", JStr "title"); ("rating", JObj [("gte", JStr "8")])].
Proof.
  apply filter_determines_parameters.
  - cbn. repeat split; repeat constructor; simpl; intuition discriminate.
  - cbn. repeat split; repeat constructor; simpl; intuition discriminate.
  - reflexivity.
Defined.

(** ** Operator words the rewrite misses, and dollar signs it doubles *)

Lemma filterOf_single (field : string) (v : json) :
  hasOpWord false field = false ->
  ~ In field removeFields ->
  filterOf [(field, v)] = Some (JObj [(field, rewriteJson v)]).
Proof.
  intros Hc Hr. rewrite filterOf_clean_keys.
  - rewrite reqQuery_id; [reflexivity |].
    intros k Hk [<- | []]. now apply Hr.
  - repeat constructor. intros [].
  - intros k [<- | []]. exact Hc.
Qed.

Lemma control_nonword (c : ascii) : isControl c = true -> isWord c = false.
Proof.
  intros H. apply special_escape. unfold isSpecial. now rewrite H, !orb_true_r.
Qed.

(** A word right after a word character is copied. *)
Lemma markWith_word (after : ascii -> bool) (w : string) :
  (forall c, isWord c = true -> after c = true) ->
  allWord w = true -> markWith after true w = w.
Proof.
  intros Ha. induction w as [|c w IH]; intros Hw; [reflexivity |].
  cbn [allWord] in Hw. apply andb_true_iff in Hw as [Hc Hw].
  cbn [markWith negb andb]. now rewrite (Ha c Hc), IH.
Qed.

Lemma rewriteStr_after_control (c : ascii) (w : string) :
  isControl c = true -> allWord w = true ->
  rewriteStr (String c w) = String c w.
Proof.
  intros Hc Hw. unfold rewriteStr. cbn [markWith].
  rewrite (opHere_nonword c w (control_nonword c Hc)), Hc, orb_true_r.
  cbn [negb andb]. f_equal. apply markWith_word; [| exact Hw].
  intros d Hd. now rewrite Hd.
Qed.

(** X4.  The replace sees the serialized text, in which a control
    character is an escape that ends in a letter or a digit: a word that
    follows a control character in a value reaches the store as it is,
    operator words included, while after a space an operator word gets its
    dollar sign. *)
Theorem word_after_control_is_kept (field : string) (c : ascii) (w : string) :
  hasOpWord false field = false ->
  ~ In field removeFields ->
  (isControl c = true -> allWord w = true ->
   filterOf [(field, JStr (String c w))]
   = Some (JObj [(field, JStr (String c w))])) /\
  (In w operators ->
   filterOf [(field, JStr (String " " w))]
   = Some (JObj [(field, JStr (String " " (String "$" w)))])).
Proof.
  intros Hf Hr. split.
  - intros Hc Hw. rewrite (filterOf_single field _ Hf Hr).
    cbn [rewriteJson]. now rewrite rewriteStr_after_control.
  - intros Hw. rewrite (filterOf_single field _ Hf Hr).
    cbn [rewriteJson]. do 5 f_equal.
    unfold operators in Hw. in_cases Hw reflexivity.
Qed.

Lemma word_after_control_is_kept_witness :
  filterOf [("title", JStr (String (ascii_of_nat 9) "gte"))]
  = Some (JObj [("title", JStr (String (ascii_of_nat 9) "gte"))]) /\
  filterOf [("title", JStr " gte")] = Some (JObj [("title", JStr " $gte")]).
Proof.
  destruct (word_after_control_is_kept "title" (ascii_of_nat 9) "gte")
    as [Hc _]; [reflexivity | simpl; intuition discriminate |].
  destruct (word_after_control_is_kept "title" " " "gte")
    as [_ Hs]; [reflexivity | simpl; intuition discriminate |].
  split; [apply Hc; reflexivity | apply Hs; simpl; tauto].
Defined.

(** X5.  Of the store's own operator syntax the rewrite touches only the
    five words it knows: a bracket that already carries the dollar sign
    before one of them gets a second one, as in [$$gte], while any other
    bracket without one of the five words, [$ne] and [$where] among them,
    reaches the filter as the client wrote it. *)
Theorem dollar_operator_is_doubled (field : string) (value : string) :
  hasOpWord false field = false ->
  ~ In field removeFields ->
  (forall op,
      In op operators ->
      filterOf [(field, JObj [(String "$" op, JStr value)])]
      = Some (JObj [(field,
                     JObj [(String "$" (String "$" op),
                            JStr (rewriteStr value))])])) /\
  (forall key,
      hasOpWord false key = false ->
      filterOf [(field, JObj [(key, JStr value)])]
      = Some (JObj [(field, JObj [(key, JStr (rewriteStr value))])])).
Proof.
  intros Hf Hr. split.
  - intros op Hop. rewrite (filterOf_single field _ Hf Hr).
    cbn [rewriteJson map fst snd fromEntries fold_left setProp].
    do 7 f_equal. unfold operators in Hop. in_cases Hop reflexivity.
  - intros key Hk. rewrite (filterOf_single field _ Hf Hr).
    cbn [rewriteJson map fst snd fromEntries fold_left setProp].
    now rewrite (rewriteStr_clean key Hk).
Qed.

Lemma dollar_operator_is_doubled_witness :
  filterOf [("rating", JObj [("$gte", JStr "8")])]
  = Some (JObj [("rating", JObj [("$$gte", JStr "8")])]) /\
  filterOf [("rating", JObj [("$ne", JStr "8")])]
  = Some (JObj [("rating", JObj [("$ne", JStr "8")])]).
Proof.
  destruct (dollar_operator_is_doubled "rating" "8") as [Hop Hother];
    [reflexivity | simpl; intuition discriminate |].
  split.
  - apply (Hop "gte"). simpl; tauto.
  - apply (Hother "$ne"). reflexivity.
Defined.

(** ** The rows of a page *)

Section RunFacts.

Local Open Scope Z_scope.

Variable Doc : Type.
Variable matches : json -> Doc -> bool.
Variable order : string -> list Doc -> list Doc.
Hypothesis order_length :
  forall s l, List.length (order s l) = List.length l.

(** X6.  Without a search, for a page and a limit of at least 1: the page
    holds [min(limit, total - skip)] rows, none when [skip] is beyond the
    total, and [next] is there exactly when records remain after the rows
    of this page. *)
Theorem rows_of_a_page (q : object) (db : list Doc) (r : Response) :
  getMovies Doc matches q db = Ok r ->
  truthy (getProp "search" q) = false ->
  1 <= pageOf q -> 1 <= limitOf q ->
  Z.of_nat (List.length (Exec.run Doc matches order (query r) db))
  = Z.min (limitOf q) (Z.max 0 (total r - skip (query r))) /\
  (next (pagination r) <> None <->
   skip (query r)
   + Z.of_nat (List.length (Exec.run Doc matches order (query r) db))
   < total r).
Proof.
  intros Hr Hs Hp Hl.
  destruct (getMovies_inv Doc matches q db r Hr)
    as (Ht & Hpg & Hsk & Hli & Hc & _).
  assert (Hc' : conditions (query r) = [rewriteJson (JObj (reqQuery q))]).
  { rewrite Hc. destruct (getProp "search" q) as [s |]; [| reflexivity].
    now rewrite Hs. }
  assert (Hm : Z.of_nat (List.length (matching Doc matches (query r) db))
               = total r).
  { rewrite Ht. unfold countDocuments, matching. rewrite Hc'. do 2 f_equal.
    apply filter_ext_in. intros d _. cbn [forallb]. apply andb_true_r. }
  assert (Hlen : Z.of_nat (List.length (Exec.run Doc matches order (query r) db))
                 = Z.min (limitOf q) (Z.max 0 (total r - skip (query r)))).
  { unfold Exec.run. rewrite length_firstn, length_skipn, order_length.
    rewrite Hli, <- Hm.
    assert (0 <= skip (query r))
      by (rewrite Hsk; unfold startIndex; nia).
    lia. }
  split; [exact Hlen |].
  rewrite Hlen, Hpg. unfold paginationOf, endIndex. cbn [next].
  assert (Hprod : pageOf q * limitOf q = skip (query r) + limitOf q)
    by (rewrite Hsk; unfold startIndex; ring).
  rewrite Hprod.
  destruct (Z.ltb_spec (skip (query r) + limitOf q) (total r));
    split; intros; try discriminate; try congruence; lia.
Qed.

End RunFacts.

Lemma rows_of_a_page_witness :
  exists r,
    getMovies RefStore.Doc RefStore.matches [("limit", JStr "1")]
              RefStore.sampleMovies = Ok r /\
    List.length (Exec.run RefStore.Doc RefStore.matches (fun _ l => l)
                          (query r) RefStore.sampleMovies) = 1%nat /\
    next (pagination r) <> None.
Proof.
  destruct (getMovies_Ok RefStore.Doc RefStore.matches [("limit", JStr "1")]
              RefStore.sampleMovies) as [r Hr]; [reflexivity | reflexivity |].
  destruct (rows_of_a_page RefStore.Doc RefStore.matches (fun _ l => l)
              (fun _ _ => eq_refl) [("limit", JStr "1")]
              RefStore.sampleMovies r Hr)
    as [Hlen Hnext]; [reflexivity | vm_compute; discriminate
                      | vm_compute; discriminate |].
  exists r. split; [exact Hr |].
  destruct (getMovies_inv _ _ _ _ _ Hr) as (Ht & _ & Hsk & _).
  assert (Htot : total r = 2%Z) by (rewrite Ht; reflexivity).
  assert (Hskip : skip (query r) = 0%Z) by (rewrite Hsk; reflexivity).
  rewrite Htot, Hskip in Hlen, Hnext.
  change (limitOf [("limit", JStr "1")]) with 1%Z in Hlen.
  split; [lia |]. apply Hnext. lia.
Defined.

(** ** The genre listing *)

Section GenreFacts.

Local Open Scope Z_scope.

Variable Doc : Type.
Variable matches : json -> Doc -> bool.

Lemma orDefault_nonzero (n : option Z) (d : Z) : d <> 0 -> orDefault n d <> 0.
Proof.
  intros Hd. unfold orDefault. destruct n as [z |]; [| exact Hd].
  destruct (Z.eqb_spec z 0); [exact Hd | assumption].
Qed.

Lemma ceilDiv_bounds (a b : Z) :
  0 < b -> (Genre.ceilDiv a b - 1) * b < a <= Genre.ceilDiv a b * b.
Proof.
  intros Hb. unfold Genre.ceilDiv.
  pose proof (Z.div_mod (- a) b) as Hdm.
  pose proof (Z.mod_pos_bound (- a) b Hb) as Hm.
  specialize (Hdm ltac:(lia)). nia.
Qed.

(** X7.  In the genre listing the total is the number of records the data
    query ranges over: count and query use one filter, whatever the genre
    and the parameters. *)
Theorem genre_total_is_range (genre : string) (q : object) (db : list Doc) :
  Genre.g_total (Genre.getMoviesByGenre Doc matches genre q db)
  = Z.of_nat (List.length
                (matching Doc matches
                   (Genre.g_query (Genre.getMoviesByGenre Doc matches genre q db))
                   db)).
Proof.
  unfold Genre.getMoviesByGenre, countDocuments, matching.
  cbn [Genre.g_total Genre.g_query conditions]. do 2 f_equal.
  apply filter_ext_in. intros d _. cbn [forallb]. now rewrite andb_true_r.
Qed.


End GenreFacts.


(** X9.  The two listings agree on whether a further page exists: for a
    limit of at least 1, the main listing gives [next] exactly when the
    page is below the page count of the genre listing's formula. *)
Theorem next_iff_below_page_count (page limit total : Z) :
  (1 <= limit)%Z ->
  next (paginationOf page limit total) <> None <->
  (page < Genre.ceilDiv total limit)%Z.
Proof.
  intros Hl. pose proof (ceilDiv_bounds total limit ltac:(lia)) as Hb.
  unfold paginationOf, endIndex. cbn [next].
  destruct (Z.ltb_spec (page * limit) total); split; intros;
    try discriminate; try congruence; nia.
Qed.

Lemma next_iff_below_page_count_witness :
  next (paginationOf 2 10 25) <> None /\ next (paginationOf 3 10 25) = None.
Proof.
  split.
  - apply (next_iff_below_page_count 2 10 25); [lia | reflexivity].
  - destruct (next (paginationOf 3 10 25)) eqn:E; [| reflexivity].
    assert (H : next (paginationOf 3 10 25) <> None) by (rewrite E; discriminate).
    apply (next_iff_below_page_count 3 10 25) in H; [| lia].
    vm_compute in H. discriminate H.
Defined.

(** ** Regular expressions: the matcher decides the language *)

Section RegexFacts.

Import Regex.

Variable ignoreCase : bool.

Local Abbreviation lang := (Regex.lang ignoreCase).
Local Abbreviation deriv := (Regex.deriv ignoreCase).

Lemma append_eq_nil (a b : string) : (a ++ b)%string = "" -> a = "" /\ b = "".
Proof. destruct a; simpl; [auto | discriminate]. Qed.

Lemma lang_nil_nullable (r : regex) (s : string) :
  lang r s -> s = "" -> nullable r = true.
Proof.
  induction 1 as [| | | r1 r2 s1 s2 H1 IH1 H2 IH2 | r1 r2 s H IH | r1 r2 s H IH
                  | | r s1 s2 H1 IH1 H2 IH2]; intros E; try discriminate E;
    cbn [nullable]; try reflexivity.
  - apply append_eq_nil in E as [E1 E2]. now rewrite IH1, IH2.
  - now rewrite IH.
  - rewrite IH by exact E. apply orb_true_r.
Qed.

Lemma nullable_lang (r : regex) : nullable r = true -> lang r "".
Proof.
  induction r as [| | c | p | r1 IH1 r2 IH2 | r1 IH1 r2 IH2 | r IH];
    cbn [nullable]; intros H; try discriminate H.
  - constructor.
  - apply andb_true_iff in H as [H1 H2].
    change "" with ("" ++ "")%string. constructor; auto.
  - apply orb_true_iff in H as [H | H];
      [apply lang_alt_l | apply lang_alt_r]; auto.
  - constructor.
Qed.

Lemma nullable_spec (r : regex) : nullable r = true <-> lang r "".
Proof.
  split; [apply nullable_lang | intros H; now apply (lang_nil_nullable r "")].
Qed.

(** A repetition that matches text starting with [d] starts with a round
    that does. *)
Lemma lang_star_cons_inv (r : regex) (u : string) :
  lang (Star r) u ->
  forall d s, u = String d s ->
  exists s1 s2, s = (s1 ++ s2)%string /\ lang r (String d s1) /\ lang (Star r) s2.
Proof.
  intros H. remember (Star r) as q eqn:Eq.
  induction H as [| | | | | | r0 | r0 s1 s2 H1 IH1 H2 IH2];
    try discriminate Eq; intros d s E; [discriminate E |].
  injection Eq as ->. destruct s1 as [|c s1].
  - simpl in E. now apply IH2.
  - simpl in E. injection E as -> <-. now exists s1, s2.
Qed.

Lemma deriv_lang (d : ascii) (r : regex) :
  forall s, lang (deriv d r) s <-> lang r (String d s).
Proof.
  induction r as [| | c | p | r1 IH1 r2 IH2 | r1 IH1 r2 IH2 | r IH]; intros s;
    cbn [Regex.deriv].
  - split; intros H; inversion H.
  - split; intros H; inversion H.
  - destruct (sameChar ignoreCase c d) eqn:E; split; intros H.
    + inversion H; subst. now constructor.
    + inversion H; subst. constructor.
    + inversion H.
    + inversion H; subst. congruence.
  - destruct (p d) eqn:E; split; intros H.
    + inversion H; subst. now constructor.
    + inversion H; subst. constructor.
    + inversion H.
    + inversion H; subst. congruence.
  - assert (Hseq : lang (Seq (deriv d r1) r2) s ->
                   lang (Seq r1 r2) (String d s)).
    { intros H. inversion H as [| | | ? ? s1 s2 H1 H2 | | | |]; subst.
      apply IH1 in H1.
      change (String d (s1 ++ s2)) with (String d s1 ++ s2)%string.
      now constructor. }
    assert (Hinv : lang (Seq r1 r2) (String d s) ->
                   lang (Seq (deriv d r1) r2) s \/
                   (nullable r1 = true /\ lang (deriv d r2) s)).
    { intros H. inversion H as [| | | ? ? s1 s2 H1 H2 E1 E2 | | | |]; subst.
      destruct s1 as [|c s1].
      - simpl in E2. subst s2. right. split.
        + now apply nullable_spec.
        + now apply IH2.
      - simpl in E2. injection E2 as -> <-. left. constructor; [| exact H2].
        now apply IH1. }
    destruct (nullable r1) eqn:En; split; intros H.
    + inversion H; subst; [now apply Hseq |].
      change (String d s) with ("" ++ String d s)%string. constructor.
      * now apply nullable_spec.
      * now apply IH2.
    + destruct (Hinv H) as [H' | [_ H']];
        [now apply lang_alt_l | now apply lang_alt_r].
    + now apply Hseq.
    + destruct (Hinv H) as [H' | [E _]]; [exact H' | discriminate E].
  - split; intros H; inversion H; subst.
    + apply lang_alt_l. now apply IH1.
    + apply lang_alt_r. now apply IH2.
    + apply lang_alt_l. now apply IH1.
    + apply lang_alt_r. now apply IH2.
  - split; intros H.
    + inversion H as [| | | ? ? s1 s2 H1 H2 | | | |]; subst.
      apply IH in H1.
      change (String d (s1 ++ s2)) with (String d s1 ++ s2)%string.
      now constructor.
    + destruct (lang_star_cons_inv r _ H d s eq_refl) as (s1 & s2 & -> & H1 & H2).
      constructor; [now apply IH | exact H2].
Qed.

Lemma matchFull_spec (s : string) :
  forall r, matchFull ignoreCase r s = true <-> lang r s.
Proof.
  induction s as [|d s IH]; intros r; cbn [matchFull].
  - apply nullable_spec.
  - rewrite IH. apply deriv_lang.
Qed.

Lemma matchPrefix_spec (s : string) :
  forall r,
    matchPrefix ignoreCase r s = true <->
    exists s1 s2, s = (s1 ++ s2)%string /\ lang r s1.
Proof.
  induction s as [|d s IH]; intros r; cbn [matchPrefix].
  - rewrite orb_false_r, nullable_spec. split.
    + intros H. now exists "", "".
    + intros (s1 & s2 & E & H). symmetry in E.
      apply append_eq_nil in E as [-> _]. exact H.
  - rewrite orb_true_iff, nullable_spec, IH. split.
    + intros [H | (s1 & s2 & -> & H)].
      * now exists "", (String d s).
      * exists (String d s1), s2. split; [reflexivity | now apply deriv_lang].
    + intros (s1 & s2 & E & H). destruct s1 as [|c s1]; [now left |].
      simpl in E. injection E as <- ->. right. exists s1, s2.
      split; [reflexivity | now apply deriv_lang].
Qed.

(** *** The constructs of the patterns *)

Lemma lang_seq_inv (r1 r2 : regex) (s : string) :
  lang (Seq r1 r2) s <->
  exists s1 s2, s = (s1 ++ s2)%string /\ lang r1 s1 /\ lang r2 s2.
Proof.
  split.
  - intros H. inversion H; subst. eauto.
  - intros (s1 & s2 & -> & H1 & H2). now constructor.
Qed.

Lemma lang_text (t : string) :
  forall s, lang (text t) s <-> agrees ignoreCase t s = true.
Proof.
  induction t as [|c t IH]; intros s; cbn [text].
  - split.
    + intros H. inversion H. reflexivity.
    + destruct s; [constructor | discriminate].
  - rewrite lang_seq_inv. split.
    + intros (s1 & s2 & -> & H1 & H2). inversion H1; subst. cbn.
      apply andb_true_iff. split; [assumption | now apply IH].
    + destruct s as [|d s]; [discriminate |]. cbn [agrees]. intros H.
      apply andb_true_iff in H as [Hc Ht]. exists (String d ""), s.
      split; [reflexivity |]. split; [now constructor | now apply IH].
Qed.

Lemma lang_opt (r : regex) (s : string) :
  lang (Opt r) s <-> lang r s \/ s = "".
Proof.
  unfold Opt. split.
  - intros H. inversion H as [| | | | ? ? ? H1 | ? ? ? H1 | |]; subst;
      [now left | right; now inversion H1].
  - intros [H | ->]; [now apply lang_alt_l | apply lang_alt_r; constructor].
Qed.

Lemma lang_sat_inv (p : ascii -> bool) (s : string) :
  lang (Sat p) s <-> exists d, s = String d "" /\ p d = true.
Proof.
  split.
  - intros H. inversion H; subst. eauto.
  - intros (d & -> & H). now constructor.
Qed.

Lemma lang_alt_inv (r1 r2 : regex) (s : string) :
  lang (Alt r1 r2) s <-> lang r1 s \/ lang r2 s.
Proof.
  split.
  - intros H. inversion H; subst; [now left | now right].
  - intros [H | H]; [now apply lang_alt_l | now apply lang_alt_r].
Qed.

(** The dot takes one character that is not a line terminator. *)
Lemma lang_dot (s : string) :
  lang Dot s <->
  (exists d, s = String d "" /\ isLineBreak d = false /\ isE2 d = false) \/
  (exists e x y,
      s = String e (String x (String y "")) /\
      isE2 e = true /\ isSeparator x y = false).
Proof.
  unfold Dot. rewrite lang_alt_inv, lang_sat_inv, lang_seq_inv. split.
  - intros [(d & -> & Hd) | (s1 & s2 & -> & H1 & H2)].
    + left. exists d. apply andb_true_iff in Hd as [H1 H2].
      apply negb_true_iff in H1, H2. auto.
    + right. apply lang_sat_inv in H1 as (e & -> & He).
      apply lang_alt_inv in H2 as [H2 | H2];
        apply lang_seq_inv in H2 as (sx & sy & -> & Hx & Hy);
        apply lang_sat_inv in Hx as (x & -> & Hx);
        apply lang_sat_inv in Hy as (y & -> & Hy);
        exists e, x, y; (split; [reflexivity |]); (split; [exact He |]);
        unfold isSeparator.
      * apply negb_true_iff in Hx. now rewrite Hx.
      * apply negb_true_iff in Hy. now rewrite Hx, Hy.
  - intros [(d & -> & H1 & H2) | (e & x & y & -> & He & Hxy)].
    + left. exists d. now rewrite H1, H2.
    + right. exists (String e ""), (String x (String y "")).
      split; [reflexivity |]. split; [now constructor |].
      apply lang_alt_inv. unfold isSeparator in Hxy.
      destruct (code x =? 128) eqn:Ex.
      * right. change (String x (String y "")) with (String x "" ++ String y "")%string.
        constructor; constructor; [exact Ex |].
        cbn [andb] in Hxy. now rewrite Hxy.
      * left. change (String x (String y "")) with (String x "" ++ String y "")%string.
        constructor; constructor; [now rewrite Ex | reflexivity].
Qed.

Lemma lang_dot_append (s1 : string) :
  lang Dot s1 ->
  forall s2,
    s1 <> "" /\ String.length s1 <> 0 /\
    startsPlain (s1 ++ s2) = true /\
    noLineBreak (s1 ++ s2) = noLineBreak s2.
Proof.
  intros H s2.
  apply lang_dot in H as [(d & -> & H1 & H2) | (e & x & y & -> & He & Hxy)].
  - repeat split; try discriminate; cbn; now rewrite H2, H1.
  - repeat split; try discriminate; cbn; now rewrite He, Hxy.
Qed.

Lemma startsPlain_dot (s : string) :
  startsPlain s = true -> exists s1 s2, s = (s1 ++ s2)%string /\ lang Dot s1.
Proof.
  destruct s as [|d r]; [discriminate |]. cbn [startsPlain].
  destruct (isE2 d) eqn:Ed.
  - destruct r as [|x [|y r]]; try discriminate. intros H.
    apply negb_true_iff in H.
    exists (String d (String x (String y ""))), r. split; [reflexivity |].
    apply lang_dot. right. now exists d, x, y.
  - intros H. apply negb_true_iff in H. exists (String d ""), r.
    split; [reflexivity |]. apply lang_dot. left. now exists d.
Qed.

Lemma noLineBreak_starts (s : string) :
  noLineBreak s = true -> s <> "" -> startsPlain s = true.
Proof.
  destruct s as [|d r]; [congruence |]. cbn [noLineBreak startsPlain].
  intros H _. destruct (isE2 d).
  - destruct r as [|x [|y r]]; try discriminate H.
    now apply andb_true_iff in H as [H _].
  - now apply andb_true_iff in H as [H _].
Qed.

Lemma lang_star_dot (s : string) :
  lang (Star Dot) s <-> noLineBreak s = true.
Proof.
  split.
  - intros H. remember (Star Dot) as q eqn:Eq.
    induction H as [| | | | | | r0 | r0 s1 s2 H1 IH1 H2 IH2];
      try discriminate Eq; [reflexivity |].
    injection Eq as ->.
    destruct (lang_dot_append s1 H1 s2) as (_ & _ & _ & ->). now apply IH2.
  - remember (String.length s) as n eqn:En. revert s En.
    induction n as [n IH] using lt_wf_ind. intros s En H.
    destruct s as [|d r] eqn:Es; [constructor |]. rewrite <- Es in *.
    assert (Hne : s <> "") by (rewrite Es; discriminate).
    destruct (startsPlain_dot s (noLineBreak_starts s H Hne))
      as (s1 & s2 & E & H1).
    destruct (lang_dot_append s1 H1 s2) as (_ & Hlen & _ & Hs2).
    rewrite E in *. constructor; [exact H1 |].
    apply (IH (String.length s2)); [| reflexivity | now rewrite <- Hs2].
    rewrite En, length_append. lia.
Qed.

Lemma lang_plus_dot (s : string) :
  lang (Plus Dot) s <-> s <> "" /\ noLineBreak s = true.
Proof.
  unfold Plus. rewrite lang_seq_inv. split.
  - intros (s1 & s2 & -> & H1 & H2).
    destruct (lang_dot_append s1 H1 s2) as (Hne & _ & _ & ->).
    apply lang_star_dot in H2. split; [| exact H2].
    destruct s1; [congruence | discriminate].
  - intros [Hne H].
    destruct (startsPlain_dot s (noLineBreak_starts s H Hne))
      as (s1 & s2 & -> & H1).
    exists s1, s2. split; [reflexivity |]. split; [exact H1 |].
    apply lang_star_dot.
    now destruct (lang_dot_append s1 H1 s2) as (_ & _ & _ & <-).
Qed.

Lemma lang_oneOf (l : list regex) (s : string) :
  lang (oneOf l) s <-> exists r, In r l /\ lang r s.
Proof.
  induction l as [|r l IH]; cbn [oneOf fold_right].
  - split; [intros H; inversion H | intros (r & [] & _)].
  - split.
    + intros H. inversion H as [| | | | ? ? ? H1 | ? ? ? H1 | |]; subst.
      * exists r. split; [now left | assumption].
      * apply IH in H1 as (r' & Hin & Hr'). exists r'.
        split; [now right | assumption].
    + intros (r' & [<- | Hin] & Hr'); [now apply lang_alt_l |].
      apply lang_alt_r. apply IH. now exists r'.
Qed.

End RegexFacts.

(** ** The patterns of the movie schema *)

Section SchemaFacts.

Import Regex.

Lemma lowerCase_append (a b : string) :
  RefStore.lowerCase (a ++ b)
  = (RefStore.lowerCase a ++ RefStore.lowerCase b)%string.
Proof. induction a as [|c a IH]; simpl; [reflexivity | now rewrite IH]. Qed.

Lemma lowerCase_split (a : string) :
  forall s b,
    RefStore.lowerCase s = (a ++ b)%string ->
    exists s1 s2, s = (s1 ++ s2)%string /\
                  RefStore.lowerCase s1 = a /\ RefStore.lowerCase s2 = b.
Proof.
  induction a as [|c a IH]; intros s b E.
  - now exists "", s.
  - destruct s as [|d s]; [discriminate E |]. simpl in E.
    injection E as Ed E. destruct (IH s b E) as (s1 & s2 & -> & H1 & H2).
    exists (String d s1), s2. simpl. now rewrite Ed, H1.
Qed.

Lemma agrees_ignoring_case (t s : string) :
  agrees true t s = true <-> RefStore.lowerCase s = RefStore.lowerCase t.
Proof.
  revert s. induction t as [|c t IH]; intros [|d s]; cbn;
    try (split; [discriminate | discriminate]); [tauto |].
  rewrite andb_true_iff, IH, Ascii.eqb_eq. split.
  - intros [-> ->]. reflexivity.
  - intros E. injection E as -> ->. now split.
Qed.

Lemma agrees_exactly (t s : string) : agrees false t s = true <-> s = t.
Proof.
  revert s. induction t as [|c t IH]; intros [|d s]; cbn;
    try (split; [discriminate | discriminate]); [tauto |].
  rewrite andb_true_iff, IH, Ascii.eqb_eq. split.
  - intros [-> ->]. reflexivity.
  - intros E. injection E as -> ->. now split.
Qed.

Lemma same_as_dot (d : ascii) : sameChar true "." d = true -> d = "."%char.
Proof.
  destruct d as [[] [] [] [] [] [] [] []]; intros H;
    try discriminate H; reflexivity.
Qed.

Lemma extensions_lower (x : string) :
  In x Schema.imageExtensions -> RefStore.lowerCase x = x.
Proof. intros H. unfold Schema.imageExtensions in H. in_cases H reflexivity. Qed.

Lemma lang_extension (e : string) :
  lang true (oneOf (map text Schema.imageExtensions)) e <->
  In (RefStore.lowerCase e) Schema.imageExtensions.
Proof.
  rewrite lang_oneOf. split.
  - intros (r & Hin & Hr). apply in_map_iff in Hin as (x & <- & Hx).
    apply lang_text, agrees_ignoring_case in Hr.
    now rewrite Hr, (extensions_lower x Hx).
  - intros Hin. exists (text (RefStore.lowerCase e)). split.
    + now apply in_map.
    + apply lang_text, agrees_ignoring_case.
      now rewrite (extensions_lower _ Hin).
Qed.

Lemma agrees_append (ci : bool) (t1 t2 : string) :
  forall s1 s2,
    agrees ci t1 s1 = true -> agrees ci t2 s2 = true ->
    agrees ci (t1 ++ t2) (s1 ++ s2) = true.
Proof.
  induction t1 as [|c t1 IH]; intros [|d s1] s2 H1 H2;
    try discriminate H1; [exact H2 |].
  cbn in *. apply andb_true_iff in H1 as [Hc H1].
  now rewrite Hc, IH.
Qed.

Lemma agrees_append_inv (ci : bool) (t1 t2 : string) :
  forall s,
    agrees ci (t1 ++ t2) s = true ->
    exists s1 s2, s = (s1 ++ s2)%string /\
                  agrees ci t1 s1 = true /\ agrees ci t2 s2 = true.
Proof.
  induction t1 as [|c t1 IH]; intros s H.
  - now exists "", s.
  - destruct s as [|d s]; [discriminate H |]. cbn in H.
    apply andb_true_iff in H as [Hc H].
    destruct (IH s H) as (s1 & s2 & -> & H1 & H2).
    exists (String d s1), s2. cbn. now rewrite Hc, H1.
Qed.

Lemma lang_scheme (ci : bool) (s : string) :
  lang ci (Seq (text "http") (Seq (Opt (Lit "s")) (text "://"))) s <->
  agrees ci "http://" s = true \/ agrees ci "https://" s = true.
Proof.
  rewrite lang_seq_inv. split.
  - intros (s1 & s2 & -> & H1 & H2).
    apply lang_seq_inv in H2 as (o & s3 & -> & Ho & H3).
    apply lang_text in H1, H3. apply lang_opt in Ho as [Ho | ->].
    + right. inversion Ho as [| c d Hd | | | | | |]; subst.
      apply (agrees_append ci "http" "s://"); [exact H1 |].
      apply (agrees_append ci "s" "://" (String d "")); [| exact H3].
      cbn. now rewrite Hd.
    + left. now apply (agrees_append ci "http" "://").
  - intros [H | H].
    + apply (agrees_append_inv ci "http" "://") in H as (s1 & s3 & -> & H1 & H3).
      exists s1, s3. split; [reflexivity |]. split; [now apply lang_text |].
      apply lang_seq_inv. exists "", s3. split; [reflexivity |].
      split; [apply lang_opt; now right | now apply lang_text].
    + apply (agrees_append_inv ci "http" "s://") in H as (s1 & s' & -> & H1 & H').
      apply (agrees_append_inv ci "s" "://") in H' as (o & s3 & -> & Ho & H3).
      exists s1, (o ++ s3)%string. split; [reflexivity |].
      split; [now apply lang_text |].
      apply lang_seq_inv. exists o, s3. split; [reflexivity |].
      split; [| now apply lang_text].
      apply lang_opt. left. destruct o as [|d [|? ?]]; try discriminate Ho.
      * cbn in Ho. rewrite andb_true_r in Ho. now constructor.
      * cbn in Ho. rewrite andb_false_r in Ho. discriminate Ho.
Qed.

Lemma lang_seq_assoc (ci : bool) (r1 r2 r3 : regex) (s : string) :
  lang ci (Seq r1 (Seq r2 r3)) s <-> lang ci (Seq (Seq r1 r2) r3) s.
Proof.
  rewrite !lang_seq_inv. split.
  - intros (s1 & s23 & -> & H1 & H23).
    apply lang_seq_inv in H23 as (s2 & s3 & -> & H2 & H3).
    exists (s1 ++ s2)%string, s3. rewrite append_assoc.
    split; [reflexivity |]. split; [now constructor | assumption].
  - intros (s12 & s3 & -> & H12 & H3).
    apply lang_seq_inv in H12 as (s1 & s2 & -> & H1 & H2).
    exists s1, (s2 ++ s3)%string. rewrite append_assoc.
    split; [reflexivity |]. split; [assumption | now constructor].
Qed.

(** A pattern that starts as both patterns of the schema do. *)
Lemma lang_url (ci : bool) (R : regex) (u : string) :
  lang ci (Seq (text "http") (Seq (Opt (Lit "s")) (Seq (text "://") R))) u <->
  exists s rest,
    u = (s ++ rest)%string /\
    (agrees ci "http://" s = true \/ agrees ci "https://" s = true) /\
    lang ci R rest.
Proof.
  split.
  - intros H. apply lang_seq_inv in H as (s1 & u1 & -> & H1 & H).
    apply lang_seq_inv in H as (o & u2 & -> & Ho & H).
    apply lang_seq_inv in H as (s3 & rest & -> & H3 & HR).
    exists (s1 ++ o ++ s3)%string, rest. rewrite !append_assoc.
    split; [reflexivity |]. split; [| exact HR].
    apply lang_scheme. constructor; [exact H1 |]. now constructor.
  - intros (s & rest & -> & Hs & HR). apply lang_scheme in Hs.
    apply lang_seq_inv in Hs as (s1 & u1 & -> & H1 & Hs).
    apply lang_seq_inv in Hs as (o & s3 & -> & Ho & H3).
    rewrite !append_assoc. constructor; [exact H1 |].
    constructor; [exact Ho |]. now constructor.
Qed.

(** X10.  The pattern of [posterUrl] accepts exactly the empty text and
    the texts made of [http://] or [https://] in any letter case, at
    least one character, none of them a line terminator (line feed,
    carriage return, U+2028, U+2029), a dot, and one of the extensions
    jpg, jpeg, png, gif, webp in any letter case at the very end. *)
Theorem poster_url_pattern (u : string) :
  Schema.posterUrlOk u = true <->
  u = "" \/
  exists s b e,
    u = (s ++ b ++ String "." e)%string /\
    (RefStore.lowerCase s = "http://" \/ RefStore.lowerCase s = "https://") /\
    b <> "" /\ noLineBreak b = true /\
    In (RefStore.lowerCase e) Schema.imageExtensions.
Proof.
  unfold Schema.posterUrlOk, Schema.posterPattern.
  rewrite orb_true_iff, String.eqb_eq, matchFull_spec, lang_url.
  apply or_iff_compat_l. split.
  - intros (s & rest & -> & Hs & Hrest).
    apply lang_seq_inv in Hrest as (b & rest' & -> & Hb & Hrest).
    apply lang_seq_inv in Hrest as (dot & e & -> & Hdot & He).
    inversion Hdot as [| c d Hd | | | | | |]; subst.
    apply same_as_dot in Hd as ->. apply lang_plus_dot in Hb as [Hne Hb].
    apply lang_extension in He. rewrite !agrees_ignoring_case in Hs.
    exists s, b, e. repeat split; assumption.
  - intros (s & b & e & -> & Hs & Hne & Hb & He).
    exists s, (b ++ String "." e)%string. split; [reflexivity |]. split.
    + now rewrite !agrees_ignoring_case.
    + apply lang_seq_inv. exists b, (String "." e). split; [reflexivity |].
      split; [now apply lang_plus_dot |].
      apply lang_seq_inv. exists ".", e. split; [reflexivity |].
      split; [now constructor | now apply lang_extension].
Qed.

(** X11.  The pattern of [trailerUrl] only looks at the start: it accepts
    exactly the empty text and the texts that begin with [http://] or
    [https://], in lower case, followed by a character that is not a line
    terminator (line feed, carriage return, U+2028, U+2029); anything may
    follow. *)
Theorem trailer_url_pattern (u : string) :
  Schema.trailerUrlOk u = true <->
  u = "" \/
  exists s rest,
    u = (s ++ rest)%string /\
    (s = "http://" \/ s = "https://") /\
    startsPlain rest = true.
Proof.
  unfold Schema.trailerUrlOk, Schema.trailerPattern.
  rewrite orb_true_iff, String.eqb_eq, matchPrefix_spec.
  apply or_iff_compat_l. split.
  - intros (p & tl & -> & Hp).
    apply lang_url in Hp as (s & dots & -> & Hs & Hd).
    apply lang_seq_inv in Hd as (s1 & s2 & -> & H1 & _).
    rewrite !agrees_exactly in Hs.
    exists s, (s1 ++ s2 ++ tl)%string. rewrite !append_assoc.
    split; [reflexivity |]. split; [exact Hs |].
    now destruct (lang_dot_append false s1 H1 (s2 ++ tl)%string) as (_ & _ & H & _).
  - intros (s & rest & -> & Hs & Hd).
    apply (startsPlain_dot false) in Hd as (s1 & s2 & -> & H1).
    exists (s ++ s1)%string, s2. split.
    + rewrite append_assoc. reflexivity.
    + apply lang_url. exists s, s1. split; [reflexivity |].
      split; [now rewrite !agrees_exactly |].
      apply lang_seq_inv. exists s1, "". rewrite append_nil_r.
      split; [reflexivity |]. split; [exact H1 | constructor].
Qed.

(** X12.  Seeding never imports a movie: the poster URL of each sample
    ends in a [?text=] query, not in an image extension, so every sample
    fails the schema; whatever the other validators say and however the
    earlier steps go, [importData] stores no movie and exits with code
    1. *)
Theorem seeding_never_succeeds (otherChecks : Seed.record -> bool) :
  Forall (fun m => forall id,
              Seed.valid otherChecks (Seed.withCreator id m) = false)
         Seed.movies /\
  (forall env,
      Seed.exitCode (Seed.importData otherChecks env) = 1 /\
      Seed.stored (Seed.importData otherChecks env) = []).
Proof.
  split; [repeat constructor |].
  intros [[] [] [] [[| admin users] |]]; cbn; split; reflexivity.
Qed.

End SchemaFacts.

(** ** Single movies: who may change what *)

Section CrudFacts.

Variable V : Type.
Variable idValue : string -> V.
Variable idText : V -> string.
Variable validId : string -> bool.
Variable accept : Crud.fieldset V -> option (Crud.fieldset V).
Variable newId : Crud.collection V -> string.
Variable revise : Crud.fieldset V -> Crud.fieldset V -> option (Crud.fieldset V).

Local Abbreviation findById := (Crud.findById V).
Local Abbreviation field := (Crud.field V).
Local Abbreviation getMovie := (Crud.getMovie V validId).
Local Abbreviation createMovie := (Crud.createMovie V idValue accept newId).
Local Abbreviation updateMovie := (Crud.updateMovie V idValue idText validId revise).
Local Abbreviation deleteMovie := (Crud.deleteMovie V idText validId).

Lemma field_assign (k : string) (v : V) (f : Crud.fieldset V) :
  field k (Crud.assign V k v f) = Some v.
Proof.
  induction f as [|[k' v'] f IH]; cbn.
  - now rewrite String.eqb_refl.
  - destruct (String.eqb_spec k' k) as [-> | Hne]; cbn.
    + now rewrite String.eqb_refl.
    + destruct (String.eqb_spec k' k); [congruence | exact IH].
Qed.

Lemma findById_id (id : string) (c : Crud.collection V) (m : Crud.doc V) :
  findById id c = Some m -> Crud.docId V m = id.
Proof.
  intros H. apply find_some in H as [_ H]. now apply String.eqb_eq in H.
Qed.

Lemma findById_None (id : string) (c : Crud.collection V) :
  ~ In id (map (Crud.docId V) c) -> findById id c = None.
Proof.
  induction c as [|d c IH]; intros H; [reflexivity |]. cbn in *.
  destruct (String.eqb_spec (Crud.docId V d) id) as [E | _].
  - exfalso. apply H. now left.
  - apply IH. intros Hin. apply H. now right.
Qed.

Lemma findById_removeFirst (id id' : string) (c : Crud.collection V) :
  NoDup (map (Crud.docId V) c) ->
  findById id' (Crud.removeFirst V id c)
  = if String.eqb id' id then None else findById id' c.
Proof.
  induction c as [|d c IH]; intros Hnd.
  - cbn. now destruct (String.eqb id' id).
  - inversion Hnd as [|? ? Hd Hc]; subst. cbn [Crud.removeFirst].
    destruct (String.eqb_spec (Crud.docId V d) id) as [E | Hne].
    + destruct (String.eqb_spec id' id) as [-> | Hne'].
      * apply findById_None. now rewrite <- E.
      * unfold Crud.findById. cbn [find].
        destruct (String.eqb_spec (Crud.docId V d) id');
          [congruence | reflexivity].
    + specialize (IH Hc). unfold Crud.findById in *. cbn [find].
      destruct (String.eqb_spec (Crud.docId V d) id') as [E' | _];
        [| exact IH].
      destruct (String.eqb_spec id' id); [congruence | reflexivity].
Qed.

Lemma removeFirst_length (id : string) (c : Crud.collection V) (m : Crud.doc V) :
  findById id c = Some m ->
  S (List.length (Crud.removeFirst V id c)) = List.length c.
Proof.
  induction c as [|d c IH]; cbn; [discriminate |].
  destruct (String.eqb (Crud.docId V d) id); [reflexivity |].
  intros H. cbn. now rewrite IH.
Qed.

Lemma findById_last (c : Crud.collection V) (m : Crud.doc V) :
  ~ In (Crud.docId V m) (map (Crud.docId V) c) ->
  findById (Crud.docId V m) (c ++ [m])%list = Some m /\
  Crud.removeFirst V (Crud.docId V m) (c ++ [m])%list = c.
Proof.
  induction c as [|d c IH]; intros H; cbn.
  - now rewrite String.eqb_refl.
  - cbn in H. destruct (String.eqb_spec (Crud.docId V d) (Crud.docId V m)) as [E | _].
    + exfalso. apply H. now left.
    + destruct IH as [IH1 IH2]; [intros Hin; apply H; now right |].
      split; [exact IH1 | now rewrite IH2].
Qed.

Local Abbreviation mayChange := (Crud.mayChange V idText validId).

Lemma notAuthorized_false (owner : V) (who : Crud.actor) :
  Crud.notAuthorized V idText owner who = false ->
  idText owner = Crud.actorId who \/ Crud.actorRole who = "admin".
Proof.
  unfold Crud.notAuthorized. intros H. apply andb_false_iff in H as [H | H];
    apply negb_false_iff, String.eqb_eq in H; auto.
Qed.

(** X13.  A movie is changed or removed, and the answer is 200, only for
    the one who created it or for an admin: for anybody else, as for an
    id that is not there, the collection stays as it was. *)
Theorem changes_need_owner_or_admin (who : Crud.actor) (id : string)
        (body : Crud.fieldset V) (c : Crud.collection V) :
  (snd (updateMovie who id body c) <> c -> mayChange who id c) /\
  (snd (deleteMovie who id c) <> c -> mayChange who id c) /\
  (forall msg data,
      fst (updateMovie who id body c) = Crud.Json 200 msg data ->
      mayChange who id c) /\
  (forall msg data,
      fst (deleteMovie who id c) = Crud.Json 200 msg data ->
      mayChange who id c).
Proof.
  unfold Crud.updateMovie, Crud.deleteMovie, Crud.mayChange.
  destruct (validId id) eqn:Hv; cbn [negb];
    [| repeat split; cbn; intros; congruence].
  destruct (Crud.findById V id c) as [movie |] eqn:Hf;
    [| repeat split; cbn; intros; congruence].
  destruct (Crud.field V "createdBy" (Crud.fields V movie)) as [owner |] eqn:Ho;
    [| repeat split; cbn; intros; congruence].
  destruct (Crud.notAuthorized V idText owner who) eqn:Hn;
    [repeat split; cbn; intros; congruence |].
  apply notAuthorized_false in Hn.
  repeat split; intros; exists movie, owner; auto.
Qed.

(** X14.  A successful delete removes that movie and no other: afterwards
    the id is not found, so [getMovie] answers 404, every other id is
    found as before, and the collection is one movie shorter. *)
Theorem delete_removes_exactly_one (who : Crud.actor) (id : string)
        (c c' : Crud.collection V) (msg : option string)
        (data : option (Crud.doc V)) :
  NoDup (map (Crud.docId V) c) ->
  deleteMovie who id c = (Crud.Json 200 msg data, c') ->
  findById id c' = None /\
  getMovie id c' = Crud.Json 404 (Some "Movie not found") None /\
  (forall id', id' <> id -> findById id' c' = findById id' c) /\
  S (List.length c') = List.length c.
Proof.
  intros Hnd. unfold Crud.deleteMovie, Crud.getMovie.
  destruct (validId id) eqn:Hv; cbn [negb]; [| discriminate].
  destruct (Crud.findById V id c) as [movie |] eqn:Hf; [| discriminate].
  destruct (Crud.field V "createdBy" (Crud.fields V movie)) as [owner |];
    [| discriminate].
  destruct (Crud.notAuthorized V idText owner who); [discriminate |].
  intros E. injection E as _ _ <-.
  rewrite !(findById_removeFirst id _ c Hnd), String.eqb_refl.
  repeat split.
  - intros id' Hne. rewrite (findById_removeFirst id id' c Hnd).
    now destruct (String.eqb_spec id' id).
  - now apply (removeFirst_length id c movie).
Qed.

Hypothesis idText_idValue : forall s, idText (idValue s) = s.
Hypothesis accept_createdBy :
  forall b f, accept b = Some f -> field "createdBy" f = field "createdBy" b.

(** X15.  The creator of a new movie is the requester, whatever the body
    says about [createdBy]: a successful create adds one movie at the end
    of the collection whose [createdBy] reads as the requester's id, and a
    create answers 201 or hands a validation error on, leaving the
    collection as it was. *)
Theorem creator_is_the_requester (who : Crud.actor) (body : Crud.fieldset V)
        (c : Crud.collection V) :
  match createMovie who body c with
  | (Crud.Json code _ _, c') =>
      code = 201 /\
      exists movie,
        c' = (c ++ [movie])%list /\
        Crud.docId V movie = newId c /\
        option_map idText (field "createdBy" (Crud.fields V movie))
        = Some (Crud.actorId who)
  | (Crud.Next e, c') => e = Crud.ValidationError /\ c' = c
  end.
Proof.
  unfold Crud.createMovie.
  destruct (accept (Crud.assign V "createdBy" (idValue (Crud.actorId who)) body))
    as [f |] eqn:Ha; [| now split].
  split; [reflexivity |]. eexists. split; [reflexivity |].
  split; [reflexivity |]. cbn [Crud.fields].
  rewrite (accept_createdBy _ _ Ha), field_assign. cbn.
  now rewrite idText_idValue.
Qed.

(** X16.  Whoever creates a movie may delete it, and deleting it undoes
    the create: when the new id is not in the collection yet, the create
    answers with the new movie, and a delete of that id by the same
    requester answers 200 and gives the collection back as it was. *)
Theorem create_then_delete (who : Crud.actor) (body : Crud.fieldset V)
        (c c' : Crud.collection V) (msg : option string)
        (data : option (Crud.doc V)) :
  ~ In (newId c) (map (Crud.docId V) c) ->
  validId (newId c) = true ->
  createMovie who body c = (Crud.Json 201 msg data, c') ->
  (exists movie, data = Some movie /\ Crud.docId V movie = newId c) /\
  deleteMovie who (newId c) c'
  = (Crud.Json 200 (Some "Movie deleted successfully") None, c).
Proof.
  intros Hfresh Hv. unfold Crud.createMovie.
  destruct (accept (Crud.assign V "createdBy" (idValue (Crud.actorId who)) body))
    as [f |] eqn:Ha; [| discriminate].
  pose proof (findById_last c {| Crud.docId := newId c; Crud.fields := f |})
    as Hlast.
  cbn [Crud.docId] in Hlast |- *. destruct (Hlast Hfresh) as [Hfind Hrem].
  intros E. injection E as _ <- <-.
  split; [eexists; split; [exact Hfind | reflexivity] |].
  unfold Crud.deleteMovie. rewrite Hv. cbn [negb]. rewrite Hfind.
  cbn [Crud.fields].
  rewrite (accept_createdBy _ _ Ha), field_assign.
  unfold Crud.notAuthorized. rewrite idText_idValue, String.eqb_refl.
  cbn [negb andb]. now rewrite Hrem.
Qed.

End CrudFacts.

Lemma changes_need_owner_or_admin_witness :
  Crud.mayChange string (fun s => s) (fun _ => true)
    {| Crud.actorId := "u1"; Crud.actorRole := "user" |} "m1"
    [ {| Crud.docId := "m1"; Crud.fields := [("createdBy", "u1")] |} ].
Proof.
  destruct (changes_need_owner_or_admin string (fun s => s) (fun s => s)
              (fun _ => true) (fun _ b => Some b)
              {| Crud.actorId := "u1"; Crud.actorRole := "user" |} "m1" []
              [ {| Crud.docId := "m1"; Crud.fields := [("createdBy", "u1")] |} ])
    as (_ & _ & _ & Hd).
  apply (Hd (Some "Movie deleted successfully") None). reflexivity.
Defined.

Lemma delete_removes_exactly_one_witness :
  Crud.getMovie string (fun _ => true) "m1"
    [ {| Crud.docId := "m2"; Crud.fields := [("createdBy", "u1")] |} ]
  = Crud.Json 404 (Some "Movie not found") None.
Proof.
  destruct (delete_removes_exactly_one string (fun s => s) (fun _ => true)
              {| Crud.actorId := "u9"; Crud.actorRole := "admin" |} "m1"
              [ {| Crud.docId := "m1"; Crud.fields := [("createdBy", "u1")] |};
                {| Crud.docId := "m2"; Crud.fields := [("createdBy", "u1")] |} ]
              [ {| Crud.docId := "m2"; Crud.fields := [("createdBy", "u1")] |} ]
              (Some "Movie deleted successfully") None)
    as (_ & H & _).
  - repeat constructor; simpl; intuition discriminate.
  - reflexivity.
  - exact H.
Defined.

Lemma create_then_delete_witness :
  Crud.deleteMovie string (fun s => s) (fun _ => true)
    {| Crud.actorId := "u1"; Crud.actorRole := "user" |} "m2"
    [ {| Crud.docId := "m1"; Crud.fields := [("createdBy", "u7")] |};
      {| Crud.docId := "m2";
         Crud.fields := [("title", "Up"); ("createdBy", "u1")] |} ]
  = (Crud.Json 200 (Some "Movie deleted successfully") None,
     [ {| Crud.docId := "m1"; Crud.fields := [("createdBy", "u7")] |} ]).
Proof.
  apply (create_then_delete string (fun s => s) (fun s => s) (fun _ => true)
           (fun b => Some b) (fun _ => "m2") (fun s => eq_refl)
           (fun b f E => f_equal (Crud.field string "createdBy")
                                 (eq_sym (f_equal
                                            (fun o => match o with
                                                      | Some x => x
                                                      | None => b
                                                      end) E)))
           {| Crud.actorId := "u1"; Crud.actorRole := "user" |}
           [("title", "Up"); ("createdBy", "u5")]
           [ {| Crud.docId := "m1"; Crud.fields := [("createdBy", "u7")] |} ]
           _ None
           (Some {| Crud.docId := "m2";
                    Crud.fields := [("title", "Up"); ("createdBy", "u1")] |})).
  - simpl. intuition discriminate.
  - reflexivity.
  - reflexivity.
Defined.

Lemma creator_is_the_requester_witness :
  exists movie,
    snd (Crud.createMovie string (fun s => s) (fun b => Some b) (fun _ => "m2")
           {| Crud.actorId := "u1"; Crud.actorRole := "user" |}
           [("title", "Up"); ("createdBy", "u5")]
           [ {| Crud.docId := "m1"; Crud.fields := [("createdBy", "u7")] |} ])
    = ([ {| Crud.docId := "m1"; Crud.fields := [("createdBy", "u7")] |} ]
         ++ [movie])%list /\
    Crud.docId string movie = "m2" /\
    option_map (fun s : string => s)
               (Crud.field string "createdBy" (Crud.fields string movie))
    = Some "u1".
Proof.
  pose proof (creator_is_the_requester string (fun s => s) (fun s => s)
                (fun b => Some b) (fun _ => "m2") (fun s => eq_refl)
                (fun b f E => f_equal (Crud.field string "createdBy")
                                      (eq_sym (f_equal
                                                 (fun o => match o with
                                                           | Some x => x
                                                           | None => b
                                                           end) E)))
                {| Crud.actorId := "u1"; Crud.actorRole := "user" |}
                [("title", "Up"); ("createdBy", "u5")]
                [ {| Crud.docId := "m1"; Crud.fields := [("createdBy", "u7")] |} ])
    as H.
  cbn in H. exact (proj2 H).
Defined.

(** ** Routes *)

Section RouteFacts.

Import Routes.

Lemma dispatch_In (m : method) (p : string) (r : route) :
  dispatch m p = Some r ->
  In r table /\ serves r m = true /\ pathMatches (path r) (segmentsOf p) = true.
Proof.
  unfold dispatch. intros H. apply find_some in H as [Hin H].
  apply andb_true_iff in H. tauto.
Qed.

(** X17.  No request reaches a handler that writes, or the statistics,
    without passing [protect] first: every route that serves POST, PUT or
    DELETE, and every route to [createMovie], [updateMovie],
    [deleteMovie] or [getMovieStats], starts with [protect], the
    statistics with [authorize('admin')] after it; the routes that read
    have no middleware. *)
Theorem writes_pass_protect (m : method) (p : string) (r : route) :
  dispatch m p = Some r ->
  (m = POST \/ m = PUT \/ m = DELETE -> hd_error (chain r) = Some protect) /\
  (target r = createMovie \/ target r = updateMovie \/
   target r = deleteMovie \/ target r = getMovieStats ->
   hd_error (chain r) = Some protect) /\
  (target r = getMovieStats -> chain r = [protect; authorizeAdmin]) /\
  (hd_error (chain r) <> Some protect -> m = GET \/ m = HEAD).
Proof.
  intros H. apply dispatch_In in H as (Hin & Hs & _).
  unfold table in Hin.
  in_cases Hin ltac:(destruct m; cbn in Hs; try discriminate Hs; cbn;
                     repeat split; intros; try reflexivity;
                     intuition (try discriminate; try congruence; auto)).
Qed.

Lemma writes_pass_protect_witness :
  exists r,
    dispatch DELETE "/64b7f0c2a1" = Some r /\
    hd_error (chain r) = Some protect.
Proof.
  destruct (dispatch DELETE "/64b7f0c2a1") as [r |] eqn:E; [| discriminate E].
  exists r. split; [reflexivity |].
  destruct (writes_pass_protect DELETE "/64b7f0c2a1" r E) as (Hw & _).
  apply Hw. auto.
Defined.

Lemma segmentsOf_single (s : string) :
  s <> "" -> hasChar "/" s = false -> segmentsOf (String "/" s) = [s].
Proof.
  intros Hne Hs. unfold segmentsOf. cbn [split]. rewrite Ascii.eqb_refl.
  rewrite (split_plain "/" s Hs). cbn [rev app].
  destruct s; [congruence | reflexivity].
Qed.

Lemma walk_dispatch (decode : string -> option string) (m : method)
      (segs : list string) (routes : list route) :
  forall r ps,
    walk decode m segs routes = Runs r ps ->
    find (fun r => serves r m && pathMatches (path r) segs) routes = Some r /\
    paramsOf decode (path r) segs = Some ps.
Proof.
  induction routes as [|r0 rest IH]; intros r ps H; [discriminate H |].
  cbn [walk find] in *.
  destruct (pathMatches (path r0) segs); [| rewrite andb_false_r; auto].
  destruct (paramsOf decode (path r0) segs) as [ps0 |] eqn:E;
    [| discriminate H].
  destruct (serves r0 m); cbn [andb]; [| auto].
  injection H as <- <-. auto.
Qed.

(** X18.  A GET with one segment below the mount point goes to the
    top-rated or the latest listing when the segment is that name in any
    letter case; any other segment is taken for an id, [stats] and
    [genre] among them: when it decodes, [getMovie] runs with the decoded
    text as id, and when it is not valid percent-encoding no handler runs
    and the error handler gets the failure.  Whatever route the router
    runs is the first one registered that serves the method and matches
    the path. *)
Theorem single_segment_routes (decode : string -> option string) :
  (forall s,
      s <> "" -> hasChar "/" s = false ->
      resolve decode GET (String "/" s)
      = if String.eqb (RefStore.lowerCase s) "top-rated"
        then Runs {| verb := GET; path := [Fixed "top-rated"]; chain := [];
                     target := getTopRatedMovies |} []
        else if String.eqb (RefStore.lowerCase s) "latest"
             then Runs {| verb := GET; path := [Fixed "latest"]; chain := [];
                          target := getLatestMovies |} []
             else match decode s with
                  | Some id =>
                      Runs {| verb := GET; path := [Param "id"]; chain := [];
                              target := getMovie |} [("id", id)]
                  | None => DecodeFailure
                  end) /\
  (forall m p r ps,
      resolve decode m p = Runs r ps ->
      dispatch m p = Some r /\
      paramsOf decode (path r) (segmentsOf p) = Some ps).
Proof.
  split.
  - intros s Hne Hs. unfold resolve. rewrite (segmentsOf_single s Hne Hs).
    unfold table. cbn [walk serves verb path sameMethod orb andb pathMatches
                       segmentMatches paramsOf].
    change (RefStore.lowerCase "top-rated") with "top-rated".
    change (RefStore.lowerCase "latest") with "latest".
    rewrite (String.eqb_sym "top-rated"), (String.eqb_sym "latest").
    destruct (String.eqb (RefStore.lowerCase s) "top-rated"); [reflexivity |].
    cbn [andb].
    destruct (String.eqb (RefStore.lowerCase s) "latest"); [reflexivity |].
    cbn [andb].
    replace (String.eqb s "") with false
      by (symmetry; now apply String.eqb_neq).
    cbn [negb andb]. rewrite andb_false_r. destruct (decode s); reflexivity.
  - intros m p r ps H. unfold resolve in H. apply walk_dispatch in H.
    exact H.
Qed.

Lemma single_segment_routes_witness :
  resolve decodeURIComponent GET "/stats"
  = Runs {| verb := GET; path := [Param "id"]; chain := [];
            target := getMovie |} [("id", "stats")] /\
  resolve decodeURIComponent GET "/a%2Fb"
  = Runs {| verb := GET; path := [Param "id"]; chain := [];
            target := getMovie |} [("id", "a/b")] /\
  resolve decodeURIComponent GET "/%" = DecodeFailure /\
  option_map target (dispatch GET "/Top-Rated") = Some getTopRatedMovies.
Proof.
  destruct (single_segment_routes decodeURIComponent) as [Hone Hrun].
  split; [apply (Hone "stats"); [discriminate | reflexivity] |].
  split; [apply (Hone "a%2Fb"); [discriminate | reflexivity] |].
  split; [apply (Hone "%"); [discriminate | reflexivity] |].
  destruct (Hrun GET "/Top-Rated"
                 {| verb := GET; path := [Fixed "top-rated"]; chain := [];
                    target := getTopRatedMovies |} [])
    as [-> _]; [| reflexivity].
  apply (Hone "Top-Rated"); [discriminate | reflexivity].
Defined.

End RouteFacts.

(** ** Select *)

Lemma getMovies_selected (Doc : Type) (matches : json -> Doc -> bool)
      (q : object) (db : list Doc) (r : Response) :
  getMovies Doc matches q db = Ok r ->
  Ok (selected (query r))
  = (match getProp "select" q with
     | Some sel =>
         if truthy (Some sel)
         then bind (splitJoin sel) (fun f => Ok (Some f))
         else Ok None
     | None => Ok None
     end).
Proof.
  unfold getMovies. rewrite filterOf_rewrite. cbv zeta.
  destruct (match getProp "select" q with
            | Some sel => _ | None => _ end) as [fields | e];
    [| discriminate].
  cbn [bind].
  destruct (match getProp "sort" q with
            | Some srt => _ | None => _ end) as [sort | e];
    [| discriminate].
  cbn [bind]. intros E. injection E as <-. reflexivity.
Qed.


